(** * Extractive summariser of [youtube_summarizer.py]

    A shallow embedding of [summarize_text] (lines 49-94 of
    [src/youtube_summarizer.py]) and the properties of its four stages:
    word counting, normalisation, sentence scoring and top-k selection;
    then of the functions around it: [extract_video_id],
    [get_video_transcript], [summarize_youtube_video_streamlit], the loop
    of [batch_summarize] and [get_summary_length].

    Conventions of the embedding.
    - A Python [str] is a [string]; a character is read as the code point
      of its number (below 256).
    - A spaCy [Doc] is the list of the [.text] of its tokens together with
      its sentences ([doc.sents]); a sentence ([Span]) is the list of the
      [.text] of its tokens and its own [.text].  A [Span] hashes and
      compares by its position in the document, so the key of a sentence in
      [sentence_score] is its index in [doc.sents].
    - [word_frequencies] is a [gmap]: nothing the function computes depends
      on the order of its keys.  [sentence_score] is an association list in
      insertion order, the order in which [heapq.nlargest] walks it.
    - A Python [int] is a [nat] or a [Z].  A Python [float] is read in
      two ways.  In [summarize_text] and the functions around it, it is an
      exact rational ([Q]) and the arithmetic is exact: this serves the
      properties that rounding does not touch (which outcome is returned,
      which sentences have an entry, bounds and monotony).  In
      [summarize_text_float] it is a binary64 number (a primitive
      [float]) and the arithmetic rounds as CPython's does: this serves
      the properties that rounding decides (the number of sentences
      selected, their order, the exceptions of [int()]).  A score mapping
      whose order is studied on its own holds the rationals that its
      finite doubles denote: comparing two finite doubles is comparing
      these.
    - An uncaught exception is [None] in the [option] monad. *)

From Stdlib Require Import QArith Qround Lqa.
From Stdlib Require Import Ascii String.
From Stdlib Require PrimFloat SpecFloat FloatOps.
From stdpp Require Import gmap strings list fin_maps sorting.

Local Open Scope string_scope.
Local Open Scope list_scope.

(** ** Python's [str] operations used by the function *)

Module PyStr.

(** [c.isspace()] for a code point below 256: the characters
    [str.strip()] removes. *)
Definition isspace (c : ascii) : bool :=
  let n := nat_of_ascii c in
  (((9 <=? n) && (n <=? 13)) || ((28 <=? n) && (n <=? 32))
   || (n =? 133) || (n =? 160))%nat.

Fixpoint lstrip (s : string) : string :=
  match s with
  | EmptyString => EmptyString
  | String c rest => if isspace c then lstrip rest else s
  end.

Fixpoint rstrip (s : string) : string :=
  match s with
  | EmptyString => EmptyString
  | String c rest =>
      match rstrip rest with
      | EmptyString => if isspace c then EmptyString else String c EmptyString
      | kept => String c kept
      end
  end.

(** [s.strip()] *)
Definition strip (s : string) : string := rstrip (lstrip s).

(** [not s]: the empty string is the only falsy one. *)
Definition is_empty (s : string) : bool :=
  match s with EmptyString => true | String _ _ => false end.

(** [needle in hay] on two strings: [needle] occurs in [hay] as a
    contiguous run of characters. *)
Fixpoint contains (hay needle : string) : bool :=
  String.prefix needle hay
  || match hay with
     | EmptyString => false
     | String _ rest => contains rest needle
     end.

(** [sep.join(parts)] *)
Definition join (sep : string) (parts : list string) : string :=
  String.concat sep parts.

(** [str.lower()] on the ASCII letters; the instance of the lowercasing
    function used on concrete inputs. *)
Definition ascii_lower_char (c : ascii) : ascii :=
  let n := nat_of_ascii c in
  if ((65 <=? n) && (n <=? 90))%nat then ascii_of_nat (n + 32) else c.

Fixpoint ascii_lower (s : string) : string :=
  match s with
  | EmptyString => EmptyString
  | String c rest => String (ascii_lower_char c) (ascii_lower rest)
  end.

(** Every character of [s] is whitespace. *)
Fixpoint all_space (s : string) : bool :=
  match s with
  | EmptyString => true
  | String c rest => isspace c && all_space rest
  end.

(** The line feed, ["\n"]. *)
Definition newline : string := String (ascii_of_nat 10) EmptyString.

(** [s[n:]] *)
Fixpoint drop (n : nat) (s : string) : string :=
  match n, s with
  | O, _ => s
  | S _, EmptyString => EmptyString
  | S k, String _ rest => drop k rest
  end.

(** [s.split(sep)] for a non-empty [sep] (Python raises [ValueError] on an
    empty one; the function is called with literals only).  The text is
    read from the left; [cur] is the part being read, and [skip] counts
    the characters of a separator just found that are still to be
    passed. *)
Fixpoint split_go (sep : string) (skip : nat) (cur s : string) : list string :=
  match s with
  | EmptyString => [cur]
  | String c rest =>
      match skip with
      | S k => split_go sep k cur rest
      | O =>
          if String.prefix sep s
          then cur :: split_go sep (String.length sep - 1) EmptyString rest
          else split_go sep 0 (cur +:+ String c EmptyString) rest
      end
  end.

Definition split (sep s : string) : list string :=
  split_go sep 0 EmptyString s.

(** [s.replace(old, new)] for a non-empty [old]: the occurrences of [old]
    found from the left, without overlap, are those [split] cuts at. *)
Definition replace (old new s : string) : string :=
  join new (split old s).

End PyStr.

(** [string.punctuation] of the Python standard library. *)
Definition punctuation : string :=
  "!" +:+ String (ascii_of_nat 34) "#$%&'()*+,-./:;<=>?@[\]^_`{|}~".

Example punctuation_length : String.length punctuation = 32.
Proof. reflexivity. Qed.

(** ** The data *)

(** A sentence of the document: the [.text] of each of its tokens, and
    the sentence's own [.text]. *)
Record Span := mkSpan { span_words : list string; span_text : string }.

(** The result of [nlp(text)]: the [.text] of each token of the document
    and the sentences of [document.sents]. *)
Record Doc := mkDoc { doc_words : list string; doc_sents : list Span }.

#[global] Instance Span_eq_dec : EqDecision Span.
Proof. solve_decision. Defined.

(** A sentence as a dictionary key: the span with its position in
    [document.sents]. *)
Definition Sentence : Type := nat * Span.

(** What [summarize_text] returns: an error message (a [str]), or the
    pair [(summary, sentence_tokens)]. *)
Inductive outcome : Type :=
| Error (message : string)
| Summary (summary : string) (sentence_tokens : list Span).

(** What [input()] meets at the console: a line typed by the user, or
    Ctrl-C ([KeyboardInterrupt]).  A list of events that runs out is the
    end of the input, where [input()] raises [EOFError]. *)
Inductive console_event : Type :=
| Typed (line : string)
| Interrupt.

(** ** A Python [dict] in insertion order *)

Module Dict.
Section Dict.
Context {K V : Type} `{EqDecision K}.

(** [d.get(k)]; [k in d.keys()] is [is_Some (get d k)]. *)
Fixpoint get (d : list (K * V)) (k : K) : option V :=
  match d with
  | [] => None
  | (k', v') :: rest => if decide (k' = k) then Some v' else get rest k
  end.

(** [d[k] = v]: a present key keeps its place, a new one goes last. *)
Fixpoint set (d : list (K * V)) (k : K) (v : V) : list (K * V) :=
  match d with
  | [] => [(k, v)]
  | (k', v') :: rest =>
      if decide (k' = k) then (k, v) :: rest else (k', v') :: set rest k v
  end.

(** [list(d)]: the keys in insertion order. *)
Definition keys (d : list (K * V)) : list K := d.*1.

End Dict.
End Dict.

(** ** Numbers *)

(** The quotient of two [int]s as a [float]. *)
Definition ratio (a b : nat) : Q :=
  (inject_Z (Z.of_nat a) / inject_Z (Z.of_nat b))%Q.

(** [a / b] on two [int]s; [ZeroDivisionError] when [b] is zero. *)
Definition true_div (a b : nat) : option Q :=
  match b with
  | O => None
  | S _ => Some (ratio a b)
  end.

(** [max(l)] on a list of [int]s; [ValueError] on the empty list. *)
Definition py_max (l : list nat) : option nat :=
  match l with
  | [] => None
  | x :: rest => Some (foldl Nat.max x rest)
  end.

(** [int(x)] on a [float]: truncation toward zero. *)
Definition py_int (x : Q) : Z := Z.quot (Qnum x) (Zpos (Qden x)).

Definition Qltb (x y : Q) : bool := negb (Qle_bool y x).

(** ** Binary64 numbers

    The arithmetic of CPython's [float]: IEEE 754 binary64, each
    operation rounded to the nearest double, ties to even. *)

(** The double that an [int] becomes when it meets a [float]: the nearest
    one, and the [int] itself below 2^53.  Past the largest double Python
    raises [OverflowError] at this conversion; here the result is an
    infinity, on which [py_int_float] raises. *)
Definition float_of_int (n : Z) : PrimFloat.float :=
  FloatOps.SF2Prim
    (SpecFloat.binary_normalize FloatOps.prec FloatOps.emax n 0 false).

(** The rational that a finite double denotes (0 for an infinity and for
    a nan, which denote none). *)
Definition float_value (x : PrimFloat.float) : Q :=
  match FloatOps.Prim2SF x with
  | SpecFloat.S754_finite sign mantissa exponent =>
      let magnitude :=
        if (0 <=? exponent)%Z
        then inject_Z (Z.pos mantissa * 2 ^ exponent)
        else Z.pos mantissa # Z.to_pos (2 ^ (- exponent)) in
      if sign then (- magnitude)%Q else magnitude
  | _ => 0%Q
  end.

(** [int(x)] on a [float]: truncation toward zero; [ValueError] on a nan
    and [OverflowError] on an infinity. *)
Definition py_int_float (x : PrimFloat.float) : option Z :=
  match FloatOps.Prim2SF x with
  | SpecFloat.S754_zero _ => Some 0%Z
  | SpecFloat.S754_infinity _ => None
  | SpecFloat.S754_nan => None
  | SpecFloat.S754_finite sign mantissa exponent =>
      let magnitude :=
        if (0 <=? exponent)%Z
        then (Z.pos mantissa * 2 ^ exponent)%Z
        else (Z.pos mantissa / 2 ^ (- exponent))%Z in
      Some (if sign then (- magnitude)%Z else magnitude)
  end.

(** [a / b] on two [int]s, rounded; [ZeroDivisionError] when [b] is
    zero.  (For [int]s below 2^53, which the length of a list is.) *)
Definition true_div_float (a b : nat) : option PrimFloat.float :=
  match b with
  | O => None
  | S _ =>
      Some (PrimFloat.div (float_of_int (Z.of_nat a))
                          (float_of_int (Z.of_nat b)))
  end.

(** ** [heapq.nlargest]

    [nlargest(n, iterable, key)] is [sorted(iterable, key=key,
    reverse=True)[:n]], and [sorted] is stable, also with [reverse=True]:
    of two elements with equal keys the one met first comes first. *)

Section Nlargest.
Context {A : Type} (key : A → Q).

Fixpoint insert_desc (x : A) (l : list A) : list A :=
  match l with
  | [] => [x]
  | y :: rest =>
      if Qltb (key x) (key y) then y :: insert_desc x rest else x :: l
  end.

Definition sorted_desc (l : list A) : list A := foldr insert_desc [] l.

Definition nlargest (n : Z) (l : list A) : list A :=
  take (Z.to_nat n) (sorted_desc l).

(** The order of selection when [pos] gives the place of an element in
    the walk: [x] goes before [y] when its key is larger, or when the
    keys are equal and [x] was met first. *)
Definition selected_before (pos : A → nat) (x y : A) : Prop :=
  (key y < key x)%Q ∨ ((key x == key y)%Q ∧ (pos x < pos y)%nat).

End Nlargest.

(** ** Concrete inputs *)

(** Four of spaCy's English stopwords. *)
Definition stop_words_sample : list string := ["the"; "are"; "and"; "too"].

(** A model that tokenises every text to [document]. *)
Definition nlp_of (document : Doc) : string → option Doc :=
  λ _, Some document.

(** "Hello World." : one sentence, three tokens. *)
Definition doc_hello : Doc :=
  let words := ["Hello"; "World"; "."] in
  mkDoc words [mkSpan words "Hello World."].

(** "Stop. Dogs chase cats." : two sentences. *)
Definition doc_dogs : Doc :=
  mkDoc ["Stop"; "."; "Dogs"; "chase"; "cats"; "."]
        [mkSpan ["Stop"; "."] "Stop.";
         mkSpan ["Dogs"; "chase"; "cats"; "."] "Dogs chase cats."].

(** "cats are great pets. dogs are loyal too. cats and dogs both need
    love." : the scenario of the specification, in lower case. *)
Definition doc_pets : Doc :=
  mkDoc ["cats"; "are"; "great"; "pets"; "."; "dogs"; "are"; "loyal"; "too";
         "."; "cats"; "and"; "dogs"; "both"; "need"; "love"; "."]
        [mkSpan ["cats"; "are"; "great"; "pets"; "."] "cats are great pets.";
         mkSpan ["dogs"; "are"; "loyal"; "too"; "."] "dogs are loyal too.";
         mkSpan ["cats"; "and"; "dogs"; "both"; "need"; "love"; "."]
                "cats and dogs both need love."].

(** "the and too." : every token is a stopword or punctuation. *)
Definition doc_stopwords : Doc :=
  let words := ["the"; "and"; "too"; "."] in
  mkDoc words [mkSpan words "the and too."].

Definition text_hello : string := "Hello World.".
Definition text_dogs : string := "Stop. Dogs chase cats.".
Definition text_pets : string :=
  "cats are great pets. dogs are loyal too. cats and dogs both need love.".
Definition text_stopwords : string := "the and too.".

(** "zebra. apple banana. mango mango mango mango mango zebra zebra
    banana." : the weights are 3/5 for "zebra", 1/5 for "apple", 2/5 for
    "banana" and 1 for "mango".  As rationals the first two sentences
    score the same; as doubles the second scores more, 0.2 + 0.4 being
    the double after 0.6. *)
Definition doc_fruit : Doc :=
  mkDoc ["zebra"; "."; "apple"; "banana"; "."; "mango"; "mango"; "mango";
         "mango"; "mango"; "zebra"; "zebra"; "banana"; "."]
        [mkSpan ["zebra"; "."] "zebra.";
         mkSpan ["apple"; "banana"; "."] "apple banana.";
         mkSpan ["mango"; "mango"; "mango"; "mango"; "mango"; "zebra";
                 "zebra"; "banana"; "."]
                "mango mango mango mango mango zebra zebra banana."].

Definition text_fruit : string :=
  "zebra. apple banana. mango mango mango mango mango zebra zebra banana.".

(** The double that Python reads from a decimal literal such as [0.7]:
    the one nearest to 7/10, which is also the rounded quotient of 7.0
    by 10.0. *)
Definition float_literal (numerator denominator : Z) : PrimFloat.float :=
  PrimFloat.div (float_of_int numerator) (float_of_int denominator).

(** A pytube that fails on every URL, a transcript service that gives
    the same two entries for every video, and a reading of numbers that
    knows two texts. *)
Definition pytube_fails : string → option string := λ _, None.

Definition transcript_sample : string → option (list string) :=
  λ _, Some [" Hello"; "big" +:+ PyStr.newline +:+ "world "].

Definition float_sample (line : string) : option Q :=
  if String.eqb line "0.5" then Some (1 # 2)
  else if String.eqb line "7" then Some 7%Q
  else None.

Definition url_watch : string := "https://www.youtube.com/watch?v=abc&t=1".
Definition url_short : string := "https://youtu.be/abc?t=1".

(** ** [summarize_text] *)

Section Summarizer.

(** [str.lower], the stopword set [STOP_WORDS] of spaCy and the loaded
    model [nlp] come from outside the repository.  [nlp] may raise. *)
Variable lower : string → string.
Variable STOP_WORDS : list string.
Variable nlp : string → option Doc.

(** Lines 59-60: the test that lets a token into the frequency table.
    [punctuation] is a [str], so [not in] is a substring test. *)
Definition is_counted (word : string) : bool :=
  let word_text := lower word in
  bool_decide (word_text ∉ STOP_WORDS)
  && negb (PyStr.contains punctuation word_text).

(** Lines 59-64: the body of the counting loop, for one token. *)
Definition count_word (word_frequencies : gmap string nat) (word : string)
    : gmap string nat :=
  if is_counted word then
    match word_frequencies !! word with
    | None => <[word := 1%nat]> word_frequencies
    | Some n => <[word := (n + 1)%nat]> word_frequencies
    end
  else word_frequencies.

(** Lines 57-64. *)
Definition count_words (words : list string) : gmap string nat :=
  foldl count_word ∅ words.

(** Lines 71-72: every count is divided by [max_frequency].  The source
    overwrites the values in place; the keys do not change. *)
Definition normalize (word_frequencies : gmap string nat)
    (max_frequency : nat) : option (gmap string Q) :=
  foldr (λ entry acc,
           weights ← acc;
           weight ← true_div entry.2 max_frequency;
           Some (<[entry.1 := weight]> weights))
        (Some ∅) (map_to_list word_frequencies).

(** Lines 79-83: the body of the scoring loop, for one token of one
    sentence, the sum taken exactly ([score_word_float] rounds it). *)
Definition score_word (word_frequencies : gmap string Q)
    (sentence : Sentence) (sentence_score : list (Sentence * Q))
    (word : string) : list (Sentence * Q) :=
  match word_frequencies !! lower word with
  | None => sentence_score
  | Some weight =>
      match Dict.get sentence_score sentence with
      | None => Dict.set sentence_score sentence weight
      | Some score => Dict.set sentence_score sentence (score + weight)%Q
      end
  end.

(** Lines 78-83: the inner loop over the tokens of one sentence. *)
Definition score_sentence (word_frequencies : gmap string Q)
    (sentence_score : list (Sentence * Q)) (sentence : Sentence)
    : list (Sentence * Q) :=
  foldl (score_word word_frequencies sentence) sentence_score
        (span_words sentence.2).

(** Lines 76-83. *)
Definition score_sentences (word_frequencies : gmap string Q)
    (sentence_tokens : list Span) : list (Sentence * Q) :=
  foldl (score_sentence word_frequencies) [] (imap pair sentence_tokens).

(** Line 89, the product taken exactly ([select_length_float] rounds it
    and raises where [int()] does). *)
Definition select_length (sentence_tokens : list Span) (summary_length : Q)
    : Z :=
  Z.max 1 (py_int (inject_Z (Z.of_nat (length sentence_tokens))
                   * summary_length)%Q).

(** Lines 89-90.  Walking [sentence_score] yields its keys in insertion
    order and [sentence_score.get] gives each its stored score, so the
    keyed elements are the entries of the dictionary. *)
Definition summary_sentences (sentence_tokens : list Span)
    (sentence_score : list (Sentence * Q)) (summary_length : Q)
    : list Sentence :=
  (nlargest snd (select_length sentence_tokens summary_length)
            sentence_score).*1.

(** Lines 91-92. *)
Definition final_summary (selected : list Sentence) : list string :=
  map (λ sentence, span_text sentence.2) selected.

(** Lines 49-94. *)
Definition summarize_text (text : string) (summary_length : Q)
    : option outcome :=
  if PyStr.is_empty (PyStr.strip text) then
    Some (Error "Error: No text to summarize")
  else
    document ← nlp text;
    let word_frequencies := count_words (doc_words document) in
    if decide (word_frequencies = ∅) then
      Some (Error "Error: No meaningful words found in text")
    else
      max_frequency ← py_max (map_to_list word_frequencies).*2;
      word_frequencies ← normalize word_frequencies max_frequency;
      let sentence_tokens := doc_sents document in
      let sentence_score := score_sentences word_frequencies sentence_tokens in
      match sentence_score with
      | [] => Some (Error "Error: Could not score sentences")
      | _ :: _ =>
          let selected :=
            summary_sentences sentence_tokens sentence_score summary_length in
          Some (Summary (PyStr.join " " (final_summary selected))
                        sentence_tokens)
      end.

(** ** [summarize_text] in binary64

    The same lines with the arithmetic of the machine: the weights, the
    scores and [summary_length] are doubles, every division, addition and
    product is rounded, and [int()] raises on a product that is not
    finite. *)

(** Lines 71-72. *)
Definition normalize_float (word_frequencies : gmap string nat)
    (max_frequency : nat) : option (gmap string PrimFloat.float) :=
  foldr (λ entry acc,
           weights ← acc;
           weight ← true_div_float entry.2 max_frequency;
           Some (<[entry.1 := weight]> weights))
        (Some ∅) (map_to_list word_frequencies).

(** Lines 79-83. *)
Definition score_word_float (word_frequencies : gmap string PrimFloat.float)
    (sentence : Sentence) (sentence_score : list (Sentence * PrimFloat.float))
    (word : string) : list (Sentence * PrimFloat.float) :=
  match word_frequencies !! lower word with
  | None => sentence_score
  | Some weight =>
      match Dict.get sentence_score sentence with
      | None => Dict.set sentence_score sentence weight
      | Some score =>
          Dict.set sentence_score sentence (PrimFloat.add score weight)
      end
  end.

(** Lines 78-83. *)
Definition score_sentence_float
    (word_frequencies : gmap string PrimFloat.float)
    (sentence_score : list (Sentence * PrimFloat.float)) (sentence : Sentence)
    : list (Sentence * PrimFloat.float) :=
  foldl (score_word_float word_frequencies sentence) sentence_score
        (span_words sentence.2).

(** Lines 76-83. *)
Definition score_sentences_float
    (word_frequencies : gmap string PrimFloat.float)
    (sentence_tokens : list Span) : list (Sentence * PrimFloat.float) :=
  foldl (score_sentence_float word_frequencies) [] (imap pair sentence_tokens).

(** Line 89: [len(sentence_tokens)] becomes a double, the product is
    rounded, [int()] truncates it or raises. *)
Definition select_length_float (sentence_tokens : list Span)
    (summary_length : PrimFloat.float) : option Z :=
  Z.max 1
  <$> py_int_float
        (PrimFloat.mul (float_of_int (Z.of_nat (length sentence_tokens)))
                       summary_length).

(** The score mapping as [nlargest] compares it: each key with the
    rational that its score denotes. *)
Definition score_values (sentence_score : list (Sentence * PrimFloat.float))
    : list (Sentence * Q) :=
  prod_map id float_value <$> sentence_score.

(** Lines 89-90. *)
Definition summary_sentences_float (sentence_tokens : list Span)
    (sentence_score : list (Sentence * PrimFloat.float))
    (summary_length : PrimFloat.float) : option (list Sentence) :=
  n ← select_length_float sentence_tokens summary_length;
  Some (nlargest snd n (score_values sentence_score)).*1.

(** Lines 49-94. *)
Definition summarize_text_float (text : string)
    (summary_length : PrimFloat.float) : option outcome :=
  if PyStr.is_empty (PyStr.strip text) then
    Some (Error "Error: No text to summarize")
  else
    document ← nlp text;
    let word_frequencies := count_words (doc_words document) in
    if decide (word_frequencies = ∅) then
      Some (Error "Error: No meaningful words found in text")
    else
      max_frequency ← py_max (map_to_list word_frequencies).*2;
      word_frequencies ← normalize_float word_frequencies max_frequency;
      let sentence_tokens := doc_sents document in
      let sentence_score :=
        score_sentences_float word_frequencies sentence_tokens in
      match sentence_score with
      | [] => Some (Error "Error: Could not score sentences")
      | _ :: _ =>
          selected ← summary_sentences_float sentence_tokens sentence_score
                                             summary_length;
          Some (Summary (PyStr.join " " (final_summary selected))
                        sentence_tokens)
      end.

(** ** The functions around [summarize_text] *)

(** [extract.video_id] of pytube, the transcript service and the parsing
    of a [float] come from outside the repository; each may raise, which
    is [None].  [get_transcript] gives the ["text"] of each element of the
    transcript.  [py_float] is [None] also on a text that Python reads as
    a nan or an infinity: the loop of line 182 goes on in both cases.
    [model_available] tells whether lines 110-116 (the import and
    [spacy.load]) succeed, with [nlp] as the model; [str_e] is the text of
    the exception that the handler of line 124 formats. *)
Variable pytube_video_id : string → option string.
Variable get_transcript : string → option (list string).
Variable model_available : bool.
Variable str_e : string.
Variable py_float : string → option Q.

(** Lines 24-35.  The outer [option] is an exception that leaves the
    function (the handler of line 28 is not itself protected), the inner
    one is Python's [None]. *)
Definition extract_video_id (url : string) : option (option string) :=
  match pytube_video_id url with
  | Some video_id => Some (Some video_id)
  | None =>
      if PyStr.contains url "youtube.com/watch?v=" then
        after ← PyStr.split "v=" url !! 1%nat;
        video_id ← PyStr.split "&" after !! 0%nat;
        Some (Some video_id)
      else if PyStr.contains url "youtu.be/" then
        after ← PyStr.split "youtu.be/" url !! 1%nat;
        video_id ← PyStr.split "?" after !! 0%nat;
        Some (Some video_id)
      else Some None
  end.

(** Lines 41-43, and lines 13-15 of [Youtube_Summary.py]. *)
Definition join_transcript (transcript : list string) : string :=
  foldl (λ text elem, text +:+ " " +:+ elem) "" transcript.

(** Lines 41-44, and lines 13-16 of [Youtube_Summary.py]. *)
Definition transcript_text (transcript : list string) : string :=
  PyStr.replace PyStr.newline " " (join_transcript transcript).

(** Lines 37-47.  [None] is Python's [None]: the function catches what
    its body raises. *)
Definition get_video_transcript (video_id : string) : option string :=
  transcript ← get_transcript video_id;
  Some (PyStr.strip (transcript_text transcript)).

(** Lines 119-122 and 330-333: the summary of a tuple, or the message. *)
Definition summary_or_message (result : outcome) : string :=
  match result with
  | Summary summary _ => summary
  | Error message => message
  end.

(** Lines 96-125.  [None] inside is an exception, which line 124 turns
    into a message. *)
Definition summarize_youtube_video_streamlit (url : string)
    (summary_length : Q) : string :=
  let attempt : option string :=
    video_id ← extract_video_id url;
    match video_id with
    | Some (String _ _ as video_id) =>
        match get_video_transcript video_id with
        | Some (String _ _ as text) =>
            if model_available then
              result ← summarize_text text summary_length;
              Some (summary_or_message result)
            else None
        | _ => Some "Error: No transcript found for this video"
        end
    | _ => Some "Error: Could not extract video ID from URL"
    end in
  default ("Error: " +:+ str_e) attempt.

(** Lines 316-333: what one URL adds to [results]. *)
Definition batch_entry (summary_length : Q) (url : string)
    : option (string * string) :=
  video_id ← extract_video_id url;
  match video_id with
  | Some (String _ _ as video_id) =>
      match get_video_transcript video_id with
      | Some (String _ _ as text) =>
          result ← summarize_text text summary_length;
          Some (url, summary_or_message result)
      | _ => Some (url, "No transcript available")
      end
  | _ => Some (url, "Invalid URL")
  end.

(** Lines 315-333: the list [results] after the loop; an exception in
    one round leaves the function.  What the loop prints is left out. *)
Definition batch_results (urls : list string) (summary_length : Q)
    : option (list (string * string)) :=
  mapM (batch_entry summary_length) urls.

(** Line 343: the test that shows an entry of the batch as a failure. *)
Definition batch_is_error (summary : string) : bool :=
  String.prefix "Error:" summary
  || bool_decide (summary ∈ ["Invalid URL"; "No transcript available"]).

(** Lines 171-177: the dictionary [length_map], as its lookup. *)
Definition preset_length (choice : string) : option Q :=
  if String.eqb choice "1" then Some (1 # 10)
  else if String.eqb choice "2" then Some (2 # 10)
  else if String.eqb choice "3" then Some (3 # 10)
  else if String.eqb choice "4" then Some (5 # 10)
  else if String.eqb choice "5" then Some (7 # 10)
  else None.

(** Lines 182-190: the loop that asks for a percentage until one is
    between 0.1 and 1.0.  An interrupt reaches the handler of line 192. *)
Fixpoint custom_length (inputs : list console_event) : option Q :=
  match inputs with
  | [] => None
  | Interrupt :: _ => Some (3 # 10)
  | Typed line :: rest =>
      match py_float line with
      | Some custom =>
          if Qle_bool (1 # 10) custom && Qle_bool custom 1
          then Some custom
          else custom_length rest
      | None => custom_length rest
      end
  end.

(** Lines 159-193: the value returned, from what the user types. *)
Definition get_summary_length (inputs : list console_event) : option Q :=
  match inputs with
  | [] => None
  | Interrupt :: _ => Some (3 # 10)
  | Typed line :: rest =>
      let choice := PyStr.strip line in
      match preset_length choice with
      | Some preset => Some preset
      | None =>
          if String.eqb choice "6" then custom_length rest
          else Some (3 # 10)
      end
  end.

(** ** Notions used to state the properties *)

(** How many of [words] pass the filter and have the surface form [key]. *)
Fixpoint occurrences (key : string) (words : list string) : nat :=
  match words with
  | [] => 0
  | word :: rest =>
      (if is_counted word && bool_decide (word = key) then 1 else 0)
      + occurrences key rest
  end%nat.

(** [s] is one character, and that character is in [punctuation]. *)
Definition single_punctuation (s : string) : bool :=
  match s with
  | String c EmptyString => PyStr.contains punctuation s
  | _ => false
  end.

(** The weights that the scoring loop finds for the tokens [words] of a
    sentence, in order: one for each token whose lowercased form is a
    key. *)
Definition looked_up_weights (word_frequencies : gmap string Q)
    (words : list string) : list Q :=
  omap (λ word, word_frequencies !! lower word) words.

(** The score of a sentence after one more weight: the first weight
    creates the entry, the next ones are added to it. *)
Definition add_weight (score : option Q) (weight : Q) : Q :=
  match score with
  | None => weight
  | Some s => (s + weight)%Q
  end.

Definition accumulate (score : option Q) (weights : list Q) : option Q :=
  foldl (λ acc weight, Some (add_weight acc weight)) score weights.

Definition Qsum (weights : list Q) : Q := foldr Qplus 0%Q weights.

(** The sentence has a token whose lowercased form is a key. *)
Definition is_scored (word_frequencies : gmap string Q)
    (sentence : Sentence) : bool :=
  match looked_up_weights word_frequencies (span_words sentence.2) with
  | [] => false
  | _ :: _ => true
  end.

(** [s] is selected before [s']: its score is larger, or the scores are
    equal and [s] comes first in [document.sents]. *)
Definition ranks_before (sentence_score : list (Sentence * Q))
    (s s' : Sentence) : Prop :=
  ∃ q q', Dict.get sentence_score s = Some q
          ∧ Dict.get sentence_score s' = Some q'
          ∧ ((q' < q)%Q ∨ ((q == q')%Q ∧ (s.1 < s'.1)%nat)).

(** The entries of a score mapping are in document order, the order in
    which the scoring loop inserts them and [nlargest] walks them. *)
Definition in_document_order (sentence_score : list (Sentence * Q)) : Prop :=
  StronglySorted (λ e1 e2 : Sentence * Q, (e1.1.1 < e2.1.1)%nat)
                 sentence_score.

(** The weight mapping without the keys that differ from their own
    lowercased form. *)
Definition lowercase_keys (word_frequencies : gmap string Q)
    : gmap string Q :=
  filter (λ entry : string * Q, entry.1 = lower entry.1) word_frequencies.

(** [sum(word_frequencies.values())] before normalisation. *)
Definition total_count (word_frequencies : gmap string nat) : nat :=
  sum_list (map_to_list word_frequencies).*2.

(** The outcome of a transcript that is not empty, as the callers read
    it. *)
Definition transcript_outcome (summary_length : Q) (shown : string) : Prop :=
  shown = "Error: No meaningful words found in text"
  ∨ shown = "Error: Could not score sentences"
  ∨ ∃ video_id text sentence_tokens,
      get_video_transcript video_id = Some text
      ∧ summarize_text text summary_length
        = Some (Summary shown sentence_tokens).

(** The tokens of the document are those of its sentences, in order, as
    spaCy produces them. *)
Definition doc_partitioned (document : Doc) : Prop :=
  doc_words document = concat (span_words <$> doc_sents document).

(** * Properties *)

(** ** Strings *)

Lemma rstrip_empty s : PyStr.rstrip s = "" ↔ PyStr.all_space s = true.
Proof.
  induction s as [|c rest IH]; simpl; [done|].
  destruct (PyStr.rstrip rest) eqn:Hrest.
  - destruct (PyStr.isspace c); simpl; [|split; discriminate].
    split; intros _; [by apply IH | done].
  - split; [discriminate|].
    intros [_ Hall]%andb_true_iff. by apply IH in Hall.
Qed.

Lemma all_space_lstrip s : PyStr.all_space (PyStr.lstrip s) = PyStr.all_space s.
Proof.
  induction s as [|c rest IH]; simpl; [done|].
  destruct (PyStr.isspace c) eqn:Hc; simpl; [done|]. by rewrite Hc.
Qed.

Lemma strip_empty s : PyStr.strip s = "" ↔ PyStr.all_space s = true.
Proof. unfold PyStr.strip. by rewrite rstrip_empty, all_space_lstrip. Qed.

Lemma is_empty_true s : PyStr.is_empty s = true ↔ s = "".
Proof. by destruct s. Qed.

Lemma append_cons c (a b : string) : String c a +:+ b = String c (a +:+ b).
Proof. reflexivity. Qed.

Lemma prefix_app a b : String.prefix a b = true ↔ ∃ post, b = a +:+ post.
Proof.
  revert b. induction a as [|c a IH]; intros b; simpl.
  - destruct b; split; eauto.
  - destruct b as [|c' b]; [split; [discriminate | by intros [? ?]]|].
    simpl. destruct (Ascii.ascii_dec c c') as [->|Hne].
    + rewrite IH. split; intros [post Hpost]; exists post.
      * by rewrite append_cons, Hpost.
      * rewrite append_cons in Hpost. by injection Hpost.
    + split; [discriminate|]. intros [post Hpost].
      rewrite append_cons in Hpost. congruence.
Qed.

(** [needle in hay] holds exactly when [hay] is [needle] with something
    before and something after. *)
Lemma contains_substring hay needle :
  PyStr.contains hay needle = true ↔ ∃ pre post, hay = pre +:+ needle +:+ post.
Proof.
  induction hay as [|c hay IH].
  - change (PyStr.contains "" needle) with (String.prefix needle "" || false).
    rewrite orb_false_r, prefix_app. split.
    + intros [post Hpost]. by exists "", post.
    + intros ([|? pre] & post & Hpost); [eauto | discriminate].
  - change (PyStr.contains (String c hay) needle)
      with (String.prefix needle (String c hay) || PyStr.contains hay needle).
    rewrite orb_true_iff, prefix_app, IH. split.
    + intros [[post Hpost] | (pre & post & Hpost)].
      * by exists "", post.
      * exists (String c pre), post. by rewrite append_cons, Hpost.
    + intros ([|c' pre] & post & Hpost).
      * left. eauto.
      * right. exists pre, post. rewrite append_cons in Hpost. congruence.
Qed.

(** ** Splitting and joining *)

Lemma append_empty_r (s : string) : s +:+ "" = s.
Proof. induction s as [|c s IH]; [done|]. by rewrite append_cons, IH. Qed.

Lemma append_assoc (a b c : string) : (a +:+ b) +:+ c = a +:+ (b +:+ c).
Proof. induction a as [|d a IH]; [done|]. by rewrite !append_cons, IH. Qed.

Lemma length_append (a b : string) :
  String.length (a +:+ b) = (String.length a + String.length b)%nat.
Proof. induction a as [|d a IH]; [done|]. rewrite append_cons. simpl. by rewrite IH. Qed.

Lemma drop_append (a b : string) : PyStr.drop (String.length a) (a +:+ b) = b.
Proof. induction a as [|d a IH]; [by destruct b|]. by rewrite append_cons. Qed.

Lemma drop_length (n : nat) (s : string) :
  (String.length (PyStr.drop n s) = String.length s - n)%nat.
Proof.
  revert s. induction n as [|n IH]; intros [|c s]; simpl; auto with lia.
Qed.

Lemma split_go_skip sep skip cur s :
  (skip ≤ String.length s)%nat →
  PyStr.split_go sep skip cur s = PyStr.split_go sep 0 cur (PyStr.drop skip s).
Proof.
  revert skip. induction s as [|c s IH]; intros [|skip] Hlen; simpl in *;
    try done; try lia.
  apply IH. lia.
Qed.

(** One step of the scan: at a separator the part read so far is closed
    and the scan goes on behind the separator; elsewhere the character
    joins the part. *)
Lemma split_go_step sep cur c rest :
  sep ≠ "" →
  PyStr.split_go sep 0 cur (String c rest)
  = if String.prefix sep (String c rest)
    then cur :: PyStr.split_go sep 0 ""
                  (PyStr.drop (String.length sep) (String c rest))
    else PyStr.split_go sep 0 (cur +:+ String c "") rest.
Proof.
  intros Hsep. cbn [PyStr.split_go].
  destruct (String.prefix sep (String c rest)) eqn:Hpre; [|done].
  apply prefix_app in Hpre as [post Hpost].
  destruct sep as [|d sep]; [done|].
  rewrite append_cons in Hpost. injection Hpost as -> ->.
  change (String.length (String d sep) - 1)%nat
    with (String.length sep - 0)%nat.
  rewrite Nat.sub_0_r, split_go_skip by (rewrite length_append; lia). done.
Qed.

Lemma split_go_nonempty sep skip cur s : PyStr.split_go sep skip cur s ≠ [].
Proof.
  revert skip cur.
  induction s as [|c s IH]; intros skip cur; cbn [PyStr.split_go]; [done|].
  destruct skip; [|apply IH].
  destruct (String.prefix sep (String c s)); [done | apply IH].
Qed.

Lemma join_cons sep part parts :
  parts ≠ [] →
  PyStr.join sep (part :: parts) = part +:+ sep +:+ PyStr.join sep parts.
Proof. by destruct parts. Qed.

(** Induction on the text by its length, for the scans that jump over a
    separator. *)
Lemma string_length_ind (P : string → Prop) :
  (∀ s, (∀ t, (String.length t < String.length s)%nat → P t) → P s) →
  ∀ s, P s.
Proof.
  intros Hind s. remember (String.length s) as n eqn:Hn.
  revert s Hn. induction (lt_wf n) as [n _ IH]. intros s ->.
  apply Hind. intros t Ht. by eapply IH.
Qed.

Lemma join_split_go sep cur s :
  sep ≠ "" →
  PyStr.join sep (PyStr.split_go sep 0 cur s) = cur +:+ s.
Proof.
  intros Hsep. revert cur.
  induction s as [s IH] using string_length_ind. intros cur.
  destruct s as [|c rest]; [by rewrite append_empty_r|].
  rewrite split_go_step by done.
  destruct (String.prefix sep (String c rest)) eqn:Hpre.
  - apply prefix_app in Hpre as [post Hpost]. rewrite Hpost, drop_append.
    rewrite join_cons by apply split_go_nonempty.
    rewrite IH; [done|].
    rewrite Hpost, length_append. destruct sep; [done | simpl; lia].
  - rewrite IH by (simpl; lia). by rewrite append_assoc.
Qed.

(** Joining the parts with the separator gives the text back. *)
Lemma join_split sep s : sep ≠ "" → PyStr.join sep (PyStr.split sep s) = s.
Proof. intros Hsep. unfold PyStr.split. by rewrite join_split_go. Qed.

Lemma split_go_free sep cur s :
  sep ≠ "" →
  (∀ a b, cur = a +:+ b → b ≠ "" → String.prefix sep (b +:+ s) = false) →
  Forall (λ part, PyStr.contains part sep = false)
         (PyStr.split_go sep 0 cur s).
Proof.
  intros Hsep. revert cur.
  assert (∀ cur t, (∀ a b, cur = a +:+ b → b ≠ "" →
                      String.prefix sep (b +:+ t) = false) →
            PyStr.contains cur sep = false) as Hclosed.
  { intros cur t Hcur. apply not_true_is_false.
    intros (a & b & ->)%contains_substring.
    assert (String.prefix sep ((sep +:+ b) +:+ t) = true) as Hpre.
    { apply prefix_app. exists (b +:+ t). by rewrite append_assoc. }
    rewrite (Hcur a (sep +:+ b)) in Hpre; [done | done |].
    by destruct sep. }
  induction s as [s IH] using string_length_ind. intros cur Hcur.
  destruct s as [|c rest].
  { constructor; [|constructor]. by eapply Hclosed. }
  rewrite split_go_step by done.
  destruct (String.prefix sep (String c rest)) eqn:Hpre.
  - constructor; [by eapply Hclosed|].
    apply prefix_app in Hpre as [post Hpost]. rewrite Hpost, drop_append.
    apply IH.
    + rewrite Hpost, length_append. destruct sep; [done | simpl; lia].
    + intros a b Hab Hb. destruct a; [|done]. by destruct b.
  - apply IH; [simpl; lia|].
    intros a b Hab Hb.
    destruct (decide (a = cur)) as [->|Hne].
    + assert (b = String c "") as ->.
      { clear -Hab. induction cur as [|d cur IH]; [done|].
        rewrite !append_cons in Hab. injection Hab as Hab. by apply IH. }
      by rewrite append_cons.
    + assert (∃ b0, b = b0 +:+ String c "" ∧ cur = a +:+ b0 ∧ b0 ≠ "")
        as (b0 & -> & -> & Hb0).
      { clear -Hab Hb Hne. revert a Hab Hne.
        induction cur as [|d cur IH]; intros a Hab Hne.
        - destruct a as [|e a]; [done|]. rewrite append_cons in Hab.
          injection Hab as _ Hab. by destruct a.
        - destruct a as [|e a].
          + exists (String d cur). by rewrite !append_cons in *; simplify_eq/=.
          + rewrite !append_cons in Hab. injection Hab as -> Hab.
            destruct (IH a Hab) as (b0 & -> & -> & Hb0); [congruence|].
            by exists b0. }
      rewrite append_assoc. exact (Hcur a b0 eq_refl Hb0).
Qed.

(** No part holds the separator. *)
Lemma split_free sep s :
  sep ≠ "" →
  Forall (λ part, PyStr.contains part sep = false) (PyStr.split sep s).
Proof.
  intros Hsep. apply split_go_free; [done|].
  intros a b Hab Hb. destruct a; [|done]. by destruct b.
Qed.

Lemma contains_app_l a b needle :
  PyStr.contains a needle = true → PyStr.contains (a +:+ b) needle = true.
Proof.
  rewrite !contains_substring. intros (pre & post & ->).
  exists pre, (post +:+ b). by rewrite !append_assoc.
Qed.

Lemma contains_app_r a b needle :
  PyStr.contains b needle = true → PyStr.contains (a +:+ b) needle = true.
Proof.
  rewrite !contains_substring. intros (pre & post & ->).
  exists (a +:+ pre), post. by rewrite !append_assoc.
Qed.

Lemma contains_trans s middle needle :
  PyStr.contains s middle = true → PyStr.contains middle needle = true →
  PyStr.contains s needle = true.
Proof.
  rewrite !contains_substring. intros (pre & post & ->) (pre' & post' & ->).
  exists (pre +:+ pre'), (post' +:+ post). by rewrite !append_assoc.
Qed.

Lemma contains_char_cons d s c :
  PyStr.contains (String d s) (String c "")
  = bool_decide (c = d) || PyStr.contains s (String c "").
Proof.
  change (PyStr.contains (String d s) (String c ""))
    with (String.prefix (String c "") (String d s)
          || PyStr.contains s (String c "")).
  f_equal. simpl. destruct (ascii_dec c d) as [->|Hne].
  - rewrite bool_decide_eq_true_2 by done. by destruct s.
  - by rewrite bool_decide_eq_false_2.
Qed.

Lemma contains_char_app a b c :
  PyStr.contains (a +:+ b) (String c "")
  = PyStr.contains a (String c "") || PyStr.contains b (String c "").
Proof.
  induction a as [|d a IH]; [by destruct b|].
  by rewrite append_cons, !contains_char_cons, IH, orb_assoc.
Qed.

Lemma contains_char_join sep parts c :
  PyStr.contains sep (String c "") = false →
  Forall (λ part, PyStr.contains part (String c "") = false) parts →
  PyStr.contains (PyStr.join sep parts) (String c "") = false.
Proof.
  intros Hsep. induction 1 as [|part parts Hpart Hparts IH]; [done|].
  destruct parts as [|part' parts]; [done|].
  rewrite join_cons by done.
  by rewrite !contains_char_app, Hpart, Hsep, IH.
Qed.

(** ** Stripping *)

Lemma all_space_app a b :
  PyStr.all_space (a +:+ b) = PyStr.all_space a && PyStr.all_space b.
Proof.
  induction a as [|c a IH]; [done|].
  rewrite append_cons. simpl. by rewrite IH, andb_assoc.
Qed.

Lemma lstrip_suffix s :
  ∃ pre, s = pre +:+ PyStr.lstrip s ∧ PyStr.all_space pre = true.
Proof.
  induction s as [|c s (pre & Hs & Hpre)]; [by exists ""|]. simpl.
  destruct (PyStr.isspace c) eqn:Hc; [|by exists ""].
  exists (String c pre). rewrite append_cons, <- Hs. simpl. by rewrite Hc.
Qed.

Lemma rstrip_prefix s :
  ∃ post, s = PyStr.rstrip s +:+ post ∧ PyStr.all_space post = true.
Proof.
  induction s as [|c s (post & Hs & Hpost)]; [by exists ""|]. simpl.
  destruct (PyStr.rstrip s) as [|d kept] eqn:Hkept.
  - destruct (PyStr.isspace c) eqn:Hc.
    + exists (String c s). split; [done|]. simpl. rewrite Hc.
      by apply rstrip_empty.
    + exists post. by rewrite Hs at 1.
  - exists post. rewrite append_cons. by rewrite Hs at 1.
Qed.

(** What [strip] removes is whitespace, at the two ends. *)
Lemma strip_middle s :
  ∃ pre post, s = pre +:+ PyStr.strip s +:+ post
              ∧ PyStr.all_space pre = true ∧ PyStr.all_space post = true.
Proof.
  destruct (lstrip_suffix s) as (pre & Hs & Hpre).
  destruct (rstrip_prefix (PyStr.lstrip s)) as (post & Ht & Hpost).
  exists pre, post. unfold PyStr.strip. by rewrite <- Ht, <- Hs.
Qed.

Lemma lstrip_idempotent s : PyStr.lstrip (PyStr.lstrip s) = PyStr.lstrip s.
Proof.
  induction s as [|c s IH]; [done|]. simpl.
  destruct (PyStr.isspace c) eqn:Hc; [done|]. simpl. by rewrite Hc.
Qed.

Lemma rstrip_idempotent s : PyStr.rstrip (PyStr.rstrip s) = PyStr.rstrip s.
Proof.
  induction s as [|c s IH]; [done|]. simpl.
  destruct (PyStr.rstrip s) as [|d kept] eqn:Hkept.
  - destruct (PyStr.isspace c) eqn:Hc; [done|]. simpl. by rewrite Hc.
  - change (PyStr.rstrip (String c (String d kept)))
      with (match PyStr.rstrip (String d kept) with
            | "" => if PyStr.isspace c then "" else String c ""
            | kept' => String c kept'
            end).
    by rewrite IH.
Qed.

Lemma lstrip_rstrip s :
  PyStr.lstrip (PyStr.rstrip s) = PyStr.rstrip (PyStr.lstrip s).
Proof.
  induction s as [|c s IH]; [done|].
  cbn [PyStr.lstrip PyStr.rstrip].
  destruct (PyStr.isspace c) eqn:Hc.
  - rewrite <- IH. destruct (PyStr.rstrip s) as [|d kept]; [done|].
    simpl. by rewrite Hc.
  - cbn [PyStr.rstrip].
    destruct (PyStr.rstrip s); simpl; by rewrite Hc.
Qed.

(** A stripped text has nothing left to strip. *)
Lemma strip_idempotent s : PyStr.strip (PyStr.strip s) = PyStr.strip s.
Proof.
  unfold PyStr.strip.
  by rewrite lstrip_rstrip, lstrip_idempotent, rstrip_idempotent.
Qed.

Lemma all_space_join sep parts :
  PyStr.all_space sep = true →
  PyStr.all_space (PyStr.join sep parts) = forallb PyStr.all_space parts.
Proof.
  intros Hsep. induction parts as [|part parts IH]; [done|].
  destruct parts as [|part' parts]; [simpl; by rewrite andb_true_r|].
  rewrite join_cons by done. rewrite !all_space_app, Hsep, IH. done.
Qed.

Lemma all_space_replace_newline s :
  PyStr.all_space (PyStr.replace PyStr.newline " " s) = PyStr.all_space s.
Proof.
  unfold PyStr.replace. rewrite all_space_join by done.
  rewrite <- (join_split PyStr.newline s) at 2 by done.
  by rewrite all_space_join.
Qed.

(** ** Dictionaries *)

Section DictFacts.
Context {K V : Type} `{EqDecision K}.
Implicit Types (d : list (K * V)) (k : K) (v : V).

Lemma get_set_eq d k v : Dict.get (Dict.set d k v) k = Some v.
Proof.
  induction d as [|[k' v'] d IH]; simpl.
  - by rewrite decide_True.
  - destruct (decide (k' = k)); simpl; [by rewrite decide_True|].
    by rewrite decide_False.
Qed.

Lemma get_set_ne d k k' v :
  k ≠ k' → Dict.get (Dict.set d k v) k' = Dict.get d k'.
Proof.
  intros Hne. induction d as [|[k0 v0] d IH]; simpl.
  - by rewrite decide_False.
  - destruct (decide (k0 = k)) as [->|]; simpl.
    + by rewrite !decide_False.
    + destruct (decide (k0 = k')); done.
Qed.

Lemma get_Some_keys d k v : Dict.get d k = Some v → k ∈ Dict.keys d.
Proof.
  induction d as [|[k0 v0] d IH]; simpl; [done|].
  destruct (decide (k0 = k)) as [->|]; [intros _; left | intros ?; right; auto].
Qed.

Lemma get_None_keys d k : Dict.get d k = None ↔ k ∉ Dict.keys d.
Proof.
  induction d as [|[k0 v0] d IH]; simpl.
  - split; [intros _; apply not_elem_of_nil | done].
  - unfold Dict.keys in *. simpl. rewrite not_elem_of_cons.
    destruct (decide (k0 = k)) as [->|Hne]; [split; [done | by intros [? _]]|].
    rewrite IH. split; [by intros ?; split; [congruence|] | by intros [_ ?]].
Qed.

(** Assigning to a present key keeps the order of the keys; a new key is
    appended. *)
Lemma keys_set d k v :
  Dict.keys (Dict.set d k v)
  = if Dict.get d k is Some _ then Dict.keys d else Dict.keys d ++ [k].
Proof.
  unfold Dict.keys. induction d as [|[k0 v0] d IH]; csimpl; [done|].
  destruct (decide (k0 = k)) as [->|]; csimpl; [done|].
  rewrite IH. by destruct (Dict.get d k).
Qed.

Lemma get_elem_of d k v :
  NoDup (Dict.keys d) → (k, v) ∈ d → Dict.get d k = Some v.
Proof.
  unfold Dict.keys. induction d as [|[k0 v0] d IH]; simpl.
  - by intros _ ?%elem_of_nil.
  - intros [Hk0 Hnd]%NoDup_cons [Heq|Hin]%elem_of_cons.
    + injection Heq as -> ->. by rewrite decide_True.
    + destruct (decide (k0 = k)) as [->|]; [|by apply IH].
      exfalso. apply Hk0. apply list_elem_of_fmap. by exists (k, v).
Qed.

End DictFacts.

(** ** Counting words *)

Lemma count_word_counted (m : gmap string nat) word :
  is_counted word = true →
  count_word m word = <[word := S (default 0%nat (m !! word))]> m.
Proof.
  intros Hc. unfold count_word. rewrite Hc.
  destruct (m !! word) as [n|]; simpl; [|done]. by rewrite Nat.add_1_r.
Qed.

Lemma count_word_skipped (m : gmap string nat) word :
  is_counted word = false → count_word m word = m.
Proof. intros Hc. unfold count_word. by rewrite Hc. Qed.

Lemma foldl_count_word_lookup words (m : gmap string nat) key :
  foldl count_word m words !! key
  = match occurrences key words with
    | O => m !! key
    | S n => Some (default 0 (m !! key) + S n)%nat
    end.
Proof.
  revert m. induction words as [|word rest IH]; intros m; [done|].
  cbn [foldl occurrences]. rewrite IH.
  destruct (is_counted word) eqn:Hc; simpl.
  - rewrite count_word_counted by done.
    case_bool_decide as Hkey; simpl.
    + subst key. rewrite lookup_insert_eq. simpl.
      destruct (occurrences word rest); f_equal; lia.
    + by rewrite lookup_insert_ne.
  - by rewrite count_word_skipped.
Qed.

(** The table maps a surface form to the number of times it passed the
    filter, and holds no other key. *)
Lemma count_words_lookup words key :
  count_words words !! key
  = match occurrences key words with O => None | S n => Some (S n) end.
Proof.
  unfold count_words. rewrite foldl_count_word_lookup.
  by rewrite lookup_empty.
Qed.

Lemma occurrences_pos key words :
  (0 < occurrences key words)%nat ↔ key ∈ words ∧ is_counted key = true.
Proof.
  induction words as [|word rest IH]; cbn [occurrences].
  - split; [lia | by intros [?%elem_of_nil _]].
  - rewrite elem_of_cons. case_bool_decide as Hkey.
    + subst word. destruct (is_counted key) eqn:Hc; simpl.
      * split; [intros _; auto | lia].
      * rewrite IH. by intros; split; intros [? ?].
    + rewrite andb_false_r. simpl. rewrite IH.
      split; [intros [? ?]; auto | intros [[?|?] ?]; [congruence | auto]].
Qed.

Lemma count_words_is_Some words key :
  is_Some (count_words words !! key) ↔ key ∈ words ∧ is_counted key = true.
Proof.
  rewrite count_words_lookup, <- occurrences_pos.
  destruct (occurrences key words).
  - split; [by intros [? ?] | lia].
  - split; [lia | eauto].
Qed.

Lemma count_words_pos words key n :
  count_words words !! key = Some n → (1 ≤ n)%nat.
Proof.
  rewrite count_words_lookup. destruct (occurrences key words); [done|].
  intros [= <-]. lia.
Qed.

Lemma count_words_nonempty words :
  count_words words ≠ ∅ ↔ ∃ word, word ∈ words ∧ is_counted word = true.
Proof.
  split.
  - intros (key & n & Hkey)%map_choose. exists key.
    apply count_words_is_Some. eauto.
  - intros (word & Hword) Hempty.
    apply count_words_is_Some in Hword as [n Hn].
    by rewrite Hempty, lookup_empty in Hn.
Qed.


(** ** Normalising *)

(** Closes an order goal between [0] and the rational of an integer. *)
Ltac Q_of_Z :=
  change 0%Q with (inject_Z 0); rewrite <- ?Zlt_Qlt, <- ?Zle_Qle; lia.

Lemma foldl_max_list a l : foldl Nat.max a l = Nat.max a (max_list l).
Proof.
  revert a. induction l as [|b l IH]; intros a; simpl; [lia|].
  rewrite IH. lia.
Qed.

Lemma py_max_nonempty l : l ≠ [] → py_max l = Some (max_list l).
Proof. destruct l as [|a l]; [done|]. intros _. simpl. by rewrite foldl_max_list. Qed.

Lemma ratio_pos a b : (1 ≤ a)%nat → (1 ≤ b)%nat → (0 < ratio a b)%Q.
Proof.
  intros Ha Hb. unfold ratio. apply Qlt_shift_div_l.
  - Q_of_Z.
  - rewrite Qmult_0_l. Q_of_Z.
Qed.

Lemma ratio_le_1 a b : (1 ≤ b)%nat → (a ≤ b)%nat → (ratio a b <= 1)%Q.
Proof.
  intros Hb Hab. unfold ratio. apply Qle_shift_div_r.
  - Q_of_Z.
  - rewrite Qmult_1_l. rewrite <- Zle_Qle. lia.
Qed.

Lemma ratio_diag b : (1 ≤ b)%nat → (ratio b b == 1)%Q.
Proof.
  intros Hb. unfold ratio. apply Qmult_inv_r.
  intros Heq. unfold Qeq in Heq. simpl in Heq. lia.
Qed.

Lemma normalize_list (entries : list (string * nat)) max_frequency :
  (1 ≤ max_frequency)%nat →
  foldr (λ entry acc,
           weights ← acc;
           weight ← true_div entry.2 max_frequency;
           Some (<[entry.1 := weight]> weights))
        (Some ∅) entries
  = Some (list_to_map
            (prod_map id (λ n, ratio n max_frequency) <$> entries)
          : gmap string Q).
Proof.
  intros Hmax. induction entries as [|[word n] entries IH]; [done|].
  cbn [foldr]. rewrite IH. simpl.
  destruct max_frequency; [lia | done].
Qed.

(** With a positive [max_frequency] no division fails, and every count
    [n] becomes [n / max_frequency] under its own key. *)
Lemma normalize_fmap (word_frequencies : gmap string nat) max_frequency :
  (1 ≤ max_frequency)%nat →
  normalize word_frequencies max_frequency
  = Some ((λ n, ratio n max_frequency) <$> word_frequencies).
Proof.
  intros Hmax. unfold normalize. rewrite normalize_list by done.
  by rewrite list_to_map_fmap, list_to_map_to_list.
Qed.

(** The largest count of a non-empty table: it is a value of the table,
    it bounds every value, and it is positive. *)
Lemma max_frequency_spec words :
  count_words words ≠ ∅ →
  ∃ max_frequency,
    py_max (map_to_list (count_words words)).*2 = Some max_frequency
    ∧ (1 ≤ max_frequency)%nat
    ∧ (∃ key, count_words words !! key = Some max_frequency)
    ∧ (∀ key n, count_words words !! key = Some n → (n ≤ max_frequency)%nat).
Proof.
  intros Hne. set (m := count_words words) in *.
  assert ((map_to_list m).*2 ≠ []) as Hvals.
  { intros Hnil%fmap_nil_inv. by apply map_to_list_empty_iff in Hnil. }
  exists (max_list (map_to_list m).*2). rewrite py_max_nonempty by done.
  assert (∃ key, m !! key = Some (max_list (map_to_list m).*2)) as [key Hkey].
  { apply max_list_elem_of in Hvals.
    apply list_elem_of_fmap in Hvals as ([key n] & Hn & Hin).
    exists key. apply elem_of_map_to_list in Hin. simpl in Hn. by rewrite Hn. }
  split_and!; [done | by eapply count_words_pos | by exists key |].
  intros key' n Hn. apply max_list_elem_of_le.
  apply list_elem_of_fmap. exists (key', n). split; [done|].
  by apply elem_of_map_to_list.
Qed.

(** C2: when a token passes the filter, normalisation succeeds, every
    weight of the table lies in (0, 1], and the keys with the largest
    count, of which there is at least one, have weight exactly 1. *)
Theorem normalized_weights_unit_interval words :
  (∃ word, word ∈ words ∧ is_counted word = true) →
  ∃ max_frequency weights,
    py_max (map_to_list (count_words words)).*2 = Some max_frequency
    ∧ normalize (count_words words) max_frequency = Some weights
    ∧ (∀ key, is_Some (weights !! key) ↔ is_Some (count_words words !! key))
    ∧ (∀ key weight,
         weights !! key = Some weight → (0 < weight)%Q ∧ (weight <= 1)%Q)
    ∧ (∃ key, count_words words !! key = Some max_frequency)
    ∧ (∀ key, count_words words !! key = Some max_frequency →
         ∃ weight, weights !! key = Some weight ∧ (weight == 1)%Q).
Proof.
  intros Hword%count_words_nonempty.
  destruct (max_frequency_spec words Hword)
    as (max_frequency & Hmax & Hpos & Hkey & Hle).
  exists max_frequency, ((λ n, ratio n max_frequency) <$> count_words words).
  split_and!; [done | by apply normalize_fmap | | | done |].
  - intros key. rewrite lookup_fmap. apply fmap_is_Some.
  - intros key weight. rewrite lookup_fmap.
    destruct (count_words words !! key) as [n|] eqn:Hn; [|done].
    intros [= <-]. split.
    + apply ratio_pos; [by eapply count_words_pos | done].
    + apply ratio_le_1; [done | by eapply Hle].
  - intros key Hn. exists (ratio max_frequency max_frequency).
    rewrite lookup_fmap, Hn. split; [done | by apply ratio_diag].
Qed.

(** C3, amended: a token is skipped exactly when its lowercased form is a
    stopword or occurs in the punctuation string as a run of consecutive
    characters; a token that is not skipped adds one to the count stored
    under its surface form and changes no other key, so case variants
    are counted apart. *)
Theorem count_word_filter (word_frequencies : gmap string nat) word :
  (count_word word_frequencies word = word_frequencies
   ↔ lower word ∈ STOP_WORDS
     ∨ ∃ pre post, punctuation = pre +:+ lower word +:+ post)
  ∧ (count_word word_frequencies word ≠ word_frequencies →
     count_word word_frequencies word !! word
     = Some (S (default 0%nat (word_frequencies !! word))))
  ∧ (∀ variant, variant ≠ word →
     count_word word_frequencies word !! variant
     = word_frequencies !! variant).
Proof.
  assert (is_counted word = false
          ↔ lower word ∈ STOP_WORDS
            ∨ ∃ pre post, punctuation = pre +:+ lower word +:+ post) as Hskip.
  { unfold is_counted. cbv zeta. rewrite andb_false_iff, negb_false_iff.
    rewrite bool_decide_eq_false, contains_substring.
    split; (intros [Hstop|Hpunct]; [left | by right]).
    - by destruct (decide (lower word ∈ STOP_WORDS)).
    - by intros ?. }
  destruct (is_counted word) eqn:Hc.
  - rewrite count_word_counted by done. split_and!.
    + rewrite <- Hskip. split; [|done]. intros Heq.
      assert (<[word:=S (default 0%nat (word_frequencies !! word))]>
                word_frequencies !! word = word_frequencies !! word) as Hlook
        by by rewrite Heq.
      rewrite lookup_insert_eq in Hlook.
      destruct (word_frequencies !! word); simplify_eq/=; lia.
    + intros _. by rewrite lookup_insert_eq.
    + intros variant Hne. by rewrite lookup_insert_ne.
  - rewrite count_word_skipped by done. split_and!; [|done|done].
    rewrite <- Hskip. done.
Qed.

(** C7: when the text passes the empty-input check and no token passes
    the filter, the function returns the message for no meaningful
    words, which differs from the two other error messages; it raises
    nothing. *)
Theorem no_meaningful_words text summary_length document :
  PyStr.strip text ≠ "" →
  nlp text = Some document →
  (∀ word, word ∈ doc_words document → is_counted word = false) →
  summarize_text text summary_length
  = Some (Error "Error: No meaningful words found in text")
  ∧ "Error: No meaningful words found in text" ≠ "Error: No text to summarize"
  ∧ "Error: No meaningful words found in text"
    ≠ "Error: Could not score sentences".
Proof.
  intros Htext Hdoc Hnone. split; [|done].
  unfold summarize_text.
  destruct (PyStr.is_empty (PyStr.strip text)) eqn:Hempty.
  { by apply is_empty_true in Hempty. }
  rewrite Hdoc. simpl. rewrite decide_True; [done|].
  destruct (decide (count_words (doc_words document) = ∅)) as [|Hne]; [done|].
  apply count_words_nonempty in Hne as (word & Hin & Hc).
  rewrite Hnone in Hc; done.
Qed.

(** C8: a text that is empty or made of whitespace only gets the
    empty-input message, whatever the model would do with it: the
    tokeniser is not consulted. *)
Theorem empty_input text summary_length :
  text = "" ∨ PyStr.all_space text = true →
  summarize_text text summary_length
  = Some (Error "Error: No text to summarize").
Proof.
  intros Hblank. unfold summarize_text.
  assert (PyStr.strip text = "") as ->; [|done].
  apply strip_empty. by destruct Hblank as [->|?].
Qed.

(** ** Scoring sentences *)

Lemma score_word_weighted (word_frequencies : gmap string Q) sentence
    sentence_score word weight :
  word_frequencies !! lower word = Some weight →
  score_word word_frequencies sentence sentence_score word
  = Dict.set sentence_score sentence
             (add_weight (Dict.get sentence_score sentence) weight).
Proof.
  intros Hw. unfold score_word. rewrite Hw.
  by destruct (Dict.get sentence_score sentence).
Qed.

Lemma score_word_unweighted (word_frequencies : gmap string Q) sentence
    sentence_score word :
  word_frequencies !! lower word = None →
  score_word word_frequencies sentence sentence_score word = sentence_score.
Proof. intros Hw. unfold score_word. by rewrite Hw. Qed.

Lemma accumulate_Some_is_Some q weights : is_Some (accumulate (Some q) weights).
Proof.
  revert q. induction weights as [|w weights IH]; intros q; [by eexists|].
  apply IH.
Qed.

Lemma accumulate_None weights : accumulate None weights = None ↔ weights = [].
Proof.
  destruct weights as [|w weights]; [done|]. split; [|done].
  intros Hacc. destruct (accumulate_Some_is_Some w weights) as [score Hs].
  unfold accumulate in *. simpl in Hacc. congruence.
Qed.

Lemma accumulate_Some_sum q weights score :
  accumulate (Some q) weights = Some score → (score == q + Qsum weights)%Q.
Proof.
  revert q. induction weights as [|w weights IH]; intros q; simpl.
  - intros [= <-]. lra.
  - intros Hacc%IH. lra.
Qed.

Lemma accumulate_sum weights score :
  accumulate None weights = Some score → (score == Qsum weights)%Q.
Proof.
  destruct weights as [|w weights]; [done|].
  intros Hacc%accumulate_Some_sum. simpl in *. lra.
Qed.

Lemma accumulate_pos weights score :
  Forall (λ w, (0 < w)%Q) weights →
  accumulate None weights = Some score → (0 < score)%Q.
Proof.
  intros Hpos Hacc.
  assert (weights ≠ []) as Hne by (intros ->; done).
  apply accumulate_sum in Hacc. rewrite Hacc. clear Hacc.
  induction Hpos as [|w weights Hw Hpos IH]; [done|].
  simpl. destruct weights as [|w' weights]; [simpl; lra|].
  specialize (IH ltac:(done)). lra.
Qed.

Lemma looked_up_weights_cons (word_frequencies : gmap string Q) word words :
  looked_up_weights word_frequencies (word :: words)
  = match word_frequencies !! lower word with
    | Some weight => weight :: looked_up_weights word_frequencies words
    | None => looked_up_weights word_frequencies words
    end.
Proof. reflexivity. Qed.

Section ScoreSentence.
Variable word_frequencies : gmap string Q.
Variable sentence : Sentence.

Lemma foldl_score_word_get words sentence_score :
  Dict.get (foldl (score_word word_frequencies sentence) sentence_score words)
           sentence
  = accumulate (Dict.get sentence_score sentence)
               (looked_up_weights word_frequencies words).
Proof.
  revert sentence_score. induction words as [|word words IH];
    intros sentence_score; [done|].
  cbn [foldl]. rewrite IH, looked_up_weights_cons.
  destruct (word_frequencies !! lower word) as [weight|] eqn:Hw.
  - rewrite (score_word_weighted _ _ _ _ _ Hw). by rewrite get_set_eq.
  - by rewrite score_word_unweighted.
Qed.

Lemma foldl_score_word_get_ne words sentence_score other :
  sentence ≠ other →
  Dict.get (foldl (score_word word_frequencies sentence) sentence_score words)
           other
  = Dict.get sentence_score other.
Proof.
  intros Hne. revert sentence_score. induction words as [|word words IH];
    intros sentence_score; [done|].
  cbn [foldl]. rewrite IH.
  destruct (word_frequencies !! lower word) as [weight|] eqn:Hw.
  - rewrite (score_word_weighted _ _ _ _ _ Hw). by rewrite get_set_ne.
  - by rewrite score_word_unweighted.
Qed.

Lemma foldl_score_word_keys words sentence_score :
  Dict.keys (foldl (score_word word_frequencies sentence) sentence_score words)
  = match Dict.get sentence_score sentence,
          looked_up_weights word_frequencies words with
    | None, _ :: _ => Dict.keys sentence_score ++ [sentence]
    | _, _ => Dict.keys sentence_score
    end.
Proof.
  revert sentence_score. induction words as [|word words IH];
    intros sentence_score.
  { simpl. by destruct (Dict.get sentence_score sentence). }
  cbn [foldl]. rewrite IH, looked_up_weights_cons.
  destruct (word_frequencies !! lower word) as [weight|] eqn:Hw.
  - rewrite (score_word_weighted _ _ _ _ _ Hw). rewrite get_set_eq, keys_set.
    by destruct (Dict.get sentence_score sentence),
               (looked_up_weights word_frequencies words).
  - by rewrite score_word_unweighted.
Qed.

End ScoreSentence.

Lemma looked_up_weights_nonempty (word_frequencies : gmap string Q) words :
  looked_up_weights word_frequencies words ≠ []
  ↔ ∃ word, word ∈ words ∧ is_Some (word_frequencies !! lower word).
Proof.
  unfold looked_up_weights. split.
  - destruct (omap _ words) as [|weight rest] eqn:Hw; [done|]. intros _.
    assert (weight ∈ omap (λ word, word_frequencies !! lower word) words)
      as Hin by (rewrite Hw; left).
    apply list_elem_of_omap in Hin as (word & Hin & Hword). eauto.
  - intros (word & Hin & [weight Hword]) Hnil.
    assert (weight ∈ omap (λ word, word_frequencies !! lower word) words)
      as Hw by (apply list_elem_of_omap; eauto).
    rewrite Hnil in Hw. by apply elem_of_nil in Hw.
Qed.

Lemma is_scored_true (word_frequencies : gmap string Q) sentence :
  is_scored word_frequencies sentence = true
  ↔ looked_up_weights word_frequencies (span_words sentence.2) ≠ [].
Proof. unfold is_scored. by destruct (looked_up_weights _ _). Qed.

Section ScoreSentences.
Variable word_frequencies : gmap string Q.

Lemma foldl_score_sentence_get sentences sentence_score sentence :
  NoDup sentences →
  (∀ s, s ∈ sentences → Dict.get sentence_score s = None) →
  Dict.get (foldl (score_sentence word_frequencies) sentence_score sentences)
           sentence
  = if decide (sentence ∈ sentences)
    then accumulate None
           (looked_up_weights word_frequencies (span_words sentence.2))
    else Dict.get sentence_score sentence.
Proof.
  revert sentence_score.
  induction sentences as [|first rest IH]; intros sentence_score Hnd Hfresh.
  { case_decide as Hin; [by apply elem_of_nil in Hin | done]. }
  apply NoDup_cons in Hnd as [Hfirst Hnd]. cbn [foldl].
  rewrite IH; [|done|].
  - destruct (decide (sentence ∈ rest)) as [Hin|Hnin].
    + by rewrite decide_True by (by right).
    + unfold score_sentence. destruct (decide (first = sentence)) as [->|Hne].
      * rewrite decide_True by left.
        rewrite foldl_score_word_get, Hfresh; [done | left].
      * rewrite decide_False by (by intros [?|?]%elem_of_cons).
        by rewrite foldl_score_word_get_ne.
  - intros s Hs. unfold score_sentence.
    rewrite foldl_score_word_get_ne; [apply Hfresh; by right|].
    by intros ->.
Qed.

Lemma foldl_score_sentence_keys sentences sentence_score :
  NoDup sentences →
  (∀ s, s ∈ sentences → Dict.get sentence_score s = None) →
  Dict.keys
    (foldl (score_sentence word_frequencies) sentence_score sentences)
  = Dict.keys sentence_score
    ++ filter (λ s, is_scored word_frequencies s = true) sentences.
Proof.
  revert sentence_score.
  induction sentences as [|first rest IH]; intros sentence_score Hnd Hfresh.
  { simpl. by rewrite app_nil_r. }
  apply NoDup_cons in Hnd as [Hfirst Hnd]. cbn [foldl].
  rewrite IH; [|done|].
  - unfold score_sentence at 1. rewrite foldl_score_word_keys.
    rewrite Hfresh by left. rewrite filter_cons.
    destruct (is_scored word_frequencies first) eqn:Hscored;
      unfold is_scored in Hscored;
      destruct (looked_up_weights word_frequencies (span_words first.2));
      try done.
    by rewrite <- app_assoc.
  - intros s Hs. unfold score_sentence.
    rewrite foldl_score_word_get_ne; [apply Hfresh; by right|].
    by intros ->.
Qed.

End ScoreSentences.

(** The sentences of a document, each with its position, are pairwise
    distinct and in increasing position. *)
Lemma elem_of_enumerate (sentence_tokens : list Span) i sentence :
  (i, sentence) ∈ imap pair sentence_tokens
  ↔ sentence_tokens !! i = Some sentence.
Proof.
  rewrite elem_of_lookup_imap. split.
  - by intros (j & s & [= -> ->] & Hs).
  - intros Hs. by exists i, sentence.
Qed.

Lemma NoDup_enumerate (sentence_tokens : list Span) :
  NoDup (imap pair sentence_tokens).
Proof.
  apply NoDup_alt. intros i j [k s].
  rewrite !list_lookup_imap.
  destruct (sentence_tokens !! i), (sentence_tokens !! j); simpl; congruence.
Qed.

Lemma imap_increasing {A} (f : nat → A → Sentence) (l : list A) :
  (∀ i x, (f i x).1 = i) →
  StronglySorted (λ s1 s2 : Sentence, (s1.1 < s2.1)%nat) (imap f l).
Proof.
  revert f.
  enough (∀ n (f : nat → A → Sentence), (∀ i x, (f i x).1 = (n + i)%nat) →
          StronglySorted (λ s1 s2 : Sentence, (s1.1 < s2.1)%nat) (imap f l)
          ∧ Forall (λ s : Sentence, (n ≤ s.1)%nat) (imap f l)) as Hgen.
  { intros f Hf. by apply (Hgen 0%nat). }
  induction l as [|x l IH]; intros n f Hf.
  { split; constructor. }
  rewrite imap_cons.
  destruct (IH (S n) (f ∘ S)) as [Hsorted Hbound].
  { intros i y. simpl. rewrite Hf. lia. }
  split.
  - apply StronglySorted_cons. split; [|done].
    eapply Forall_impl; [exact Hbound|]. intros s Hs. rewrite Hf. simpl in *. lia.
  - constructor; [rewrite Hf; lia|].
    eapply Forall_impl; [exact Hbound|]. intros s Hs. simpl in *. lia.
Qed.

Lemma StronglySorted_filter {A} (R : relation A) (P : A → Prop)
    `{∀ x, Decision (P x)} (l : list A) :
  StronglySorted R l → StronglySorted R (filter P l).
Proof.
  induction 1 as [|x l Hsorted IH Hx]; [constructor|].
  rewrite filter_cons. destruct (decide (P x)); [|done].
  constructor; [done|]. apply Forall_forall. intros y [_ Hy]%list_elem_of_filter.
  by eapply Forall_forall in Hx.
Qed.

(** The keys of the score mapping are the scored sentences, in document
    order. *)
Lemma score_sentences_keys (word_frequencies : gmap string Q) sentence_tokens :
  Dict.keys (score_sentences word_frequencies sentence_tokens)
  = filter (λ s, is_scored word_frequencies s = true)
           (imap pair sentence_tokens).
Proof.
  unfold score_sentences.
  rewrite foldl_score_sentence_keys; [done | apply NoDup_enumerate | done].
Qed.

Lemma score_sentences_get (word_frequencies : gmap string Q) sentence_tokens
    sentence :
  Dict.get (score_sentences word_frequencies sentence_tokens) sentence
  = if decide (sentence ∈ imap pair sentence_tokens)
    then accumulate None
           (looked_up_weights word_frequencies (span_words sentence.2))
    else None.
Proof.
  unfold score_sentences.
  rewrite foldl_score_sentence_get; [done | apply NoDup_enumerate | done].
Qed.

Lemma score_sentences_NoDup (word_frequencies : gmap string Q) sentence_tokens :
  NoDup (Dict.keys (score_sentences word_frequencies sentence_tokens)).
Proof.
  rewrite score_sentences_keys. apply NoDup_filter, NoDup_enumerate.
Qed.

Lemma score_sentences_length (word_frequencies : gmap string Q) sentence_tokens :
  (length (score_sentences word_frequencies sentence_tokens)
   ≤ length sentence_tokens)%nat.
Proof.
  rewrite <- (length_fmap fst). fold (Dict.keys (score_sentences
    word_frequencies sentence_tokens)).
  rewrite score_sentences_keys.
  etrans; [apply length_filter|]. by rewrite length_imap.
Qed.

(** ** Selecting the largest *)

Lemma Qltb_true x y : Qltb x y = true ↔ (x < y)%Q.
Proof.
  unfold Qltb. rewrite negb_true_iff, <- not_true_iff_false, Qle_bool_iff.
  split; [apply Qnot_le_lt | apply Qlt_not_le].
Qed.

Lemma Qltb_false x y : Qltb x y = false ↔ (y <= x)%Q.
Proof. unfold Qltb. by rewrite negb_false_iff, Qle_bool_iff. Qed.

Section NlargestFacts.
Context {A : Type} (key : A → Q) (pos : A → nat).

Lemma insert_desc_Permutation x l : insert_desc key x l ≡ₚ x :: l.
Proof.
  induction l as [|y l IH]; simpl; [done|].
  destruct (Qltb (key x) (key y)); [|done].
  rewrite IH. apply Permutation_swap.
Qed.

Lemma sorted_desc_Permutation l : sorted_desc key l ≡ₚ l.
Proof.
  induction l as [|x l IH]; simpl; [done|].
  by rewrite insert_desc_Permutation, IH.
Qed.

Lemma sorted_desc_length l : length (sorted_desc key l) = length l.
Proof. by rewrite sorted_desc_Permutation. Qed.

Lemma nlargest_length n l :
  length (nlargest key n l) = Nat.min (Z.to_nat n) (length l).
Proof. unfold nlargest. by rewrite length_take, sorted_desc_length. Qed.

(** Inserting an element met before all those of a sorted list keeps the
    list in selection order: the element passes the strictly larger keys
    and stops in front of the first key that is not larger than its own. *)
Lemma insert_desc_sorted x l :
  Forall (λ y, (pos x < pos y)%nat) l →
  StronglySorted (selected_before key pos) l →
  StronglySorted (selected_before key pos) (insert_desc key x l).
Proof.
  intros Hpos Hsorted. induction Hsorted as [|y l Hsorted IH Hy]; simpl.
  { repeat constructor. }
  apply Forall_cons in Hpos as [Hxy Hpos].
  destruct (Qltb (key x) (key y)) eqn:Hlt.
  - apply Qltb_true in Hlt. constructor; [by apply IH|].
    rewrite insert_desc_Permutation. constructor; [by left | done].
  - apply Qltb_false in Hlt. constructor; [by constructor|].
    assert (selected_before key pos x y) as Hfirst.
    { destruct (Qlt_le_dec (key y) (key x)); [by left | right].
      split; [by apply Qle_antisym | done]. }
    constructor; [done|].
    apply Forall_forall. intros z Hz.
    pose proof (proj1 (Forall_forall _ _) Hy z Hz) as Hyz.
    pose proof (proj1 (Forall_forall _ _) Hpos z Hz) as Hxz.
    destruct Hyz as [Hyz|[Hyz _]].
    + left. lra.
    + destruct (Qlt_le_dec (key z) (key x)); [by left | right].
      split; [lra | done].
Qed.

(** A list walked in increasing position comes out of the sort in
    selection order. *)
Lemma sorted_desc_sorted l :
  StronglySorted (λ x y, (pos x < pos y)%nat) l →
  StronglySorted (selected_before key pos) (sorted_desc key l).
Proof.
  induction 1 as [|x l Hsorted IH Hx]; simpl; [constructor|].
  apply insert_desc_sorted; [|done].
  by rewrite sorted_desc_Permutation.
Qed.

Lemma nlargest_elem_of n l x : x ∈ nlargest key n l → x ∈ l.
Proof.
  unfold nlargest. intros (i & Hi%list_elem_of_lookup_2 & _)%elem_of_take.
  by rewrite <- (sorted_desc_Permutation l).
Qed.

(** What [nlargest] returns is in selection order, and each element it
    returns goes before each element it leaves out. *)
Lemma nlargest_sorted n l :
  StronglySorted (λ x y, (pos x < pos y)%nat) l →
  StronglySorted (selected_before key pos) (nlargest key n l)
  ∧ ∀ x y, x ∈ nlargest key n l → y ∈ l → y ∉ nlargest key n l →
           selected_before key pos x y.
Proof.
  intros Hl. pose proof (sorted_desc_sorted l Hl) as Hsorted.
  unfold nlargest.
  rewrite <- (take_drop (Z.to_nat n) (sorted_desc key l)) in Hsorted.
  split; [by eapply StronglySorted_app_1_l|].
  intros x y Hx Hy Hny.
  eapply StronglySorted_app_1_elem_of; [done.. |].
  rewrite <- (sorted_desc_Permutation l) in Hy.
  rewrite <- (take_drop (Z.to_nat n) (sorted_desc key l)) in Hy.
  by apply elem_of_app in Hy as [?|?].
Qed.

End NlargestFacts.

(** ** The whole function *)

(** What the function does once the text has passed the empty-input
    check, the model has answered and a token has passed the filter:
    nothing raises, and the outcome depends on the score mapping only. *)
Lemma summarize_text_scored text summary_length document :
  PyStr.strip text ≠ "" →
  nlp text = Some document →
  count_words (doc_words document) ≠ ∅ →
  ∃ max_frequency weights,
    py_max (map_to_list (count_words (doc_words document))).*2
    = Some max_frequency
    ∧ normalize (count_words (doc_words document)) max_frequency
      = Some weights
    ∧ summarize_text text summary_length
      = match score_sentences weights (doc_sents document) with
        | [] => Some (Error "Error: Could not score sentences")
        | _ :: _ =>
            Some (Summary
                    (PyStr.join " "
                       (final_summary
                          (summary_sentences (doc_sents document)
                             (score_sentences weights (doc_sents document))
                             summary_length)))
                    (doc_sents document))
        end.
Proof.
  intros Htext Hdoc Hne.
  destruct (max_frequency_spec _ Hne) as (max_frequency & Hmax & Hpos & _).
  exists max_frequency, ((λ n, ratio n max_frequency)
                         <$> count_words (doc_words document)).
  pose proof (normalize_fmap (count_words (doc_words document))
                max_frequency Hpos) as Hnorm.
  split_and!; [done | done |].
  unfold summarize_text.
  destruct (PyStr.is_empty (PyStr.strip text)) eqn:Hempty.
  { by apply is_empty_true in Hempty. }
  rewrite Hdoc. simpl. rewrite decide_False by done.
  rewrite Hmax. simpl. rewrite Hnorm. simpl.
  by destruct (score_sentences _ _).
Qed.

(** A returned summary comes from a document whose table was not empty
    and whose score mapping was not empty. *)
Lemma summarize_text_Summary text summary_length summary sentence_tokens :
  summarize_text text summary_length = Some (Summary summary sentence_tokens) →
  ∃ document max_frequency weights,
    nlp text = Some document
    ∧ sentence_tokens = doc_sents document
    ∧ py_max (map_to_list (count_words (doc_words document))).*2
      = Some max_frequency
    ∧ normalize (count_words (doc_words document)) max_frequency
      = Some weights
    ∧ score_sentences weights sentence_tokens ≠ []
    ∧ summary
      = PyStr.join " "
          (final_summary
             (summary_sentences sentence_tokens
                (score_sentences weights sentence_tokens) summary_length)).
Proof.
  unfold summarize_text.
  destruct (PyStr.is_empty (PyStr.strip text)); [done|].
  destruct (nlp text) as [document|]; [simpl | done].
  destruct (decide (count_words (doc_words document) = ∅)); [done|].
  destruct (py_max _) as [max_frequency|] eqn:Hmax; [simpl | done].
  destruct (normalize _ _) as [weights|] eqn:Hnorm; [simpl | done].
  destruct (score_sentences weights (doc_sents document)) eqn:Hscore; [done|].
  intros [= <- <-]. exists document, max_frequency, weights.
  rewrite Hscore. by split_and!.
Qed.

Lemma py_int_floor x : (0 <= x)%Q → py_int x = Qfloor x.
Proof.
  destruct x as [n d]. unfold Qle, py_int. simpl. intros Hn.
  apply Z.quot_div_nonneg; lia.
Qed.

Lemma select_length_pos sentence_tokens summary_length :
  (1 ≤ Z.to_nat (select_length sentence_tokens summary_length))%nat.
Proof. unfold select_length. lia. Qed.

Lemma select_length_floor sentence_tokens summary_length :
  (0 <= summary_length)%Q →
  select_length sentence_tokens summary_length
  = Z.max 1 (Qfloor (inject_Z (Z.of_nat (length sentence_tokens))
                     * summary_length)).
Proof.
  intros Hf. unfold select_length. rewrite py_int_floor; [done|].
  apply Qmult_le_0_compat; [|done].
  Q_of_Z.
Qed.

Lemma summary_sentences_length sentence_tokens sentence_score summary_length :
  length (summary_sentences sentence_tokens sentence_score summary_length)
  = Nat.min (Z.to_nat (select_length sentence_tokens summary_length))
            (length sentence_score).
Proof. unfold summary_sentences. by rewrite length_fmap, nlargest_length. Qed.

(** What the score mapping holds for the sentence at position [i]. *)
Lemma score_sentences_get_sentence (word_frequencies : gmap string Q)
    sentence_tokens i sentence :
  sentence_tokens !! i = Some sentence →
  Dict.get (score_sentences word_frequencies sentence_tokens) (i, sentence)
  = accumulate None
      (looked_up_weights word_frequencies (span_words sentence)).
Proof.
  intros Hi. rewrite score_sentences_get.
  by rewrite decide_True by by apply elem_of_enumerate.
Qed.

Lemma score_sentences_present (word_frequencies : gmap string Q)
    sentence_tokens i sentence :
  sentence_tokens !! i = Some sentence →
  is_Some (Dict.get (score_sentences word_frequencies sentence_tokens)
                    (i, sentence))
  ↔ ∃ word, word ∈ span_words sentence
            ∧ is_Some (word_frequencies !! lower word).
Proof.
  intros Hi. rewrite (score_sentences_get_sentence _ _ _ _ Hi).
  rewrite <- looked_up_weights_nonempty, <- not_eq_None_Some.
  by rewrite accumulate_None.
Qed.

Lemma score_sentences_keys_lookup (word_frequencies : gmap string Q)
    sentence_tokens s :
  s ∈ Dict.keys (score_sentences word_frequencies sentence_tokens) →
  sentence_tokens !! s.1 = Some s.2.
Proof.
  destruct s as [i sentence]. rewrite score_sentences_keys.
  intros [_ Hs]%list_elem_of_filter. by apply elem_of_enumerate.
Qed.


Section Idempotent.
Hypothesis lower_idempotent : ∀ s, lower (lower s) = lower s.

Lemma lowercase_keys_lookup (word_frequencies : gmap string Q) word :
  lowercase_keys word_frequencies !! lower word
  = word_frequencies !! lower word.
Proof.
  unfold lowercase_keys. apply option_eq. intros weight.
  rewrite map_lookup_filter_Some. simpl. rewrite lower_idempotent.
  split; [by intros [? _] | by intros ?; split].
Qed.

Lemma score_word_lowercase_keys (word_frequencies : gmap string Q) sentence
    sentence_score word :
  score_word (lowercase_keys word_frequencies) sentence sentence_score word
  = score_word word_frequencies sentence sentence_score word.
Proof. unfold score_word. by rewrite lowercase_keys_lookup. Qed.

Lemma score_sentences_lowercase_keys (word_frequencies : gmap string Q)
    sentence_tokens :
  score_sentences (lowercase_keys word_frequencies) sentence_tokens
  = score_sentences word_frequencies sentence_tokens.
Proof.
  unfold score_sentences. generalize (@nil (Sentence * Q)).
  induction (imap pair sentence_tokens) as [|sentence rest IH];
    intros sentence_score; [done|].
  cbn [foldl]. rewrite IH. f_equal. unfold score_sentence.
  generalize sentence_score.
  induction (span_words sentence.2) as [|word words IHw]; intros d; [done|].
  cbn [foldl]. by rewrite IHw, score_word_lowercase_keys.
Qed.

(** C10: the scoring loop reads the weight mapping at lowercased forms
    only, so the score mapping is the same when every key that differs
    from its lowercased form is removed; and every score of the mapping is
    strictly positive. *)
Theorem capitalized_weights_dead words sentence_tokens max_frequency weights :
  py_max (map_to_list (count_words words)).*2 = Some max_frequency →
  normalize (count_words words) max_frequency = Some weights →
  score_sentences (lowercase_keys weights) sentence_tokens
  = score_sentences weights sentence_tokens
  ∧ (∀ key weight, weights !! key = Some weight →
       key ≠ lower key → lowercase_keys weights !! key = None)
  ∧ (∀ sentence score,
       Dict.get (score_sentences weights sentence_tokens) sentence
       = Some score →
       (0 < score)%Q).
Proof.
  intros Hmax Hnorm. split_and!.
  - apply score_sentences_lowercase_keys.
  - intros key weight _ Hkey. unfold lowercase_keys.
    apply map_lookup_filter_None. right. intros w _. done.
  - assert (count_words words ≠ ∅) as Hne.
    { intros Hempty. by rewrite Hempty, map_to_list_empty in Hmax. }
    destruct (max_frequency_spec words Hne) as (mx & Hmx & Hpos & _).
    assert (mx = max_frequency) as -> by congruence.
    rewrite normalize_fmap in Hnorm by done. injection Hnorm as <-.
    intros sentence score. rewrite score_sentences_get.
    case_decide; [|done]. apply accumulate_pos.
    apply Forall_forall. intros w Hw. unfold looked_up_weights in Hw.
    apply list_elem_of_omap in Hw as (word & _ & Hword).
    rewrite lookup_fmap in Hword.
    destruct (count_words words !! lower word) as [n|] eqn:Hn; [|done].
    injection Hword as <-. apply ratio_pos; [|done].
    by eapply count_words_pos.
Qed.

End Idempotent.

(** ** Selection *)

Lemma StronglySorted_fmap_inv {A B} (R : relation B) (f : A → B) (l : list A) :
  StronglySorted R (f <$> l) → StronglySorted (λ x y, R (f x) (f y)) l.
Proof.
  induction l as [|x l IH]; [constructor|].
  rewrite fmap_cons, StronglySorted_cons, Forall_fmap.
  intros [Hx Hl]. constructor; [by apply IH | done].
Qed.

Lemma StronglySorted_lookup {A} (R : relation A) (l : list A) a b x y :
  StronglySorted R l → (a < b)%nat →
  l !! a = Some x → l !! b = Some y → R x y.
Proof.
  intros Hsorted. revert a b.
  induction Hsorted as [|z l Hsorted IH Hz]; intros a b Hab Ha Hb; [done|].
  destruct b as [|b]; [lia|]. simpl in Hb.
  destruct a as [|a]; simpl in Ha.
  - injection Ha as ->. eapply Forall_forall; [exact Hz|].
    by eapply list_elem_of_lookup_2.
  - eapply (IH a b); [lia | done | done].
Qed.

(** The entries of the score mapping are in document order. *)
Lemma score_sentences_increasing (word_frequencies : gmap string Q)
    sentence_tokens :
  StronglySorted (λ e1 e2 : Sentence * Q, (e1.1.1 < e2.1.1)%nat)
                 (score_sentences word_frequencies sentence_tokens).
Proof.
  apply (StronglySorted_fmap_inv (λ s1 s2 : Sentence, (s1.1 < s2.1)%nat) fst).
  fold (Dict.keys (score_sentences word_frequencies sentence_tokens)).
  rewrite score_sentences_keys.
  apply StronglySorted_filter, imap_increasing. done.
Qed.

Lemma in_document_order_NoDup (sentence_score : list (Sentence * Q)) :
  in_document_order sentence_score → NoDup (Dict.keys sentence_score).
Proof.
  unfold in_document_order, Dict.keys.
  induction 1 as [|e l Hsorted IH He]; csimpl; [constructor|].
  apply NoDup_cons. split; [|done].
  intros (e' & Heq & Hin)%list_elem_of_fmap.
  eapply Forall_forall in He; [|done]. rewrite Heq in He. lia.
Qed.

(** What [nlargest] keeps of a score mapping in document order, whatever
    the scores are. *)
Lemma nlargest_ranks (sentence_score : list (Sentence * Q)) (n : Z) :
  in_document_order sentence_score →
  let selected := (nlargest snd n sentence_score).*1 in
  length selected = Nat.min (Z.to_nat n) (length sentence_score)
  ∧ (∀ s, s ∈ selected → s ∈ Dict.keys sentence_score)
  ∧ (∀ a b s s', (a < b)%nat → selected !! a = Some s → selected !! b = Some s' →
       ranks_before sentence_score s s')
  ∧ (∀ s s', s ∈ selected → s' ∈ Dict.keys sentence_score → s' ∉ selected →
       ranks_before sentence_score s s').
Proof.
  intros Horder selected.
  set (entries := nlargest snd n sentence_score).
  assert (∀ e, e ∈ sentence_score → Dict.get sentence_score e.1 = Some e.2)
    as Hget.
  { intros [s q] He. apply get_elem_of; [|done].
    by apply in_document_order_NoDup. }
  destruct (nlargest_sorted snd (λ e : Sentence * Q, e.1.1) n sentence_score
              Horder) as [Hsorted Hout].
  fold entries in Hsorted, Hout.
  assert (∀ e e', e ∈ sentence_score → e' ∈ sentence_score →
            selected_before snd (λ e : Sentence * Q, e.1.1) e e' →
            ranks_before sentence_score e.1 e'.1) as Hrank.
  { intros e e' He He' Hbefore. exists e.2, e'.2.
    split_and!; [by apply Hget | by apply Hget | exact Hbefore]. }
  split_and!.
  - unfold selected. by rewrite length_fmap, nlargest_length.
  - intros s (e & -> & He)%list_elem_of_fmap.
    apply list_elem_of_fmap. exists e. split; [done|].
    by eapply nlargest_elem_of.
  - intros a b s s' Hab Ha Hb. unfold selected in Ha, Hb.
    fold entries in Ha, Hb. rewrite list_lookup_fmap in Ha, Hb.
    destruct (entries !! a) as [e|] eqn:Hea; [|done].
    destruct (entries !! b) as [e'|] eqn:Heb; [|done].
    simplify_eq/=. apply Hrank.
    + eapply nlargest_elem_of, list_elem_of_lookup_2, Hea.
    + eapply nlargest_elem_of, list_elem_of_lookup_2, Heb.
    + by eapply StronglySorted_lookup.
  - intros s s' Hs Hs' Hout'. unfold selected in Hs, Hout'.
    fold entries in Hs, Hout'.
    apply list_elem_of_fmap in Hs as (e & -> & He).
    apply list_elem_of_fmap in Hs' as (e' & -> & He').
    apply Hrank; [by eapply nlargest_elem_of | done |].
    apply Hout; [done | done |].
    intros Hin. apply Hout'. apply list_elem_of_fmap. by exists e'.
Qed.


(** ** The score mapping in binary64 *)

Lemma score_values_keys (sentence_score : list (Sentence * PrimFloat.float)) :
  Dict.keys (score_values sentence_score) = Dict.keys sentence_score.
Proof.
  unfold Dict.keys, score_values.
  induction sentence_score as [|[s x] rest IH]; csimpl; [done|].
  by rewrite IH.
Qed.

Lemma score_values_length (sentence_score : list (Sentence * PrimFloat.float)) :
  length (score_values sentence_score) = length sentence_score.
Proof. unfold score_values. by rewrite length_fmap. Qed.

(** Which sentences get an entry, and in which order, depends on the
    keys of the weight mapping only: not on the weights, and not on the
    arithmetic. *)
Section SameKeys.
Variable weights : gmap string PrimFloat.float.
Variable word_frequencies : gmap string Q.
Hypothesis same_keys :
  ∀ key, is_Some (weights !! key) ↔ is_Some (word_frequencies !! key).

Lemma score_word_float_keys sentence
    (scores : list (Sentence * PrimFloat.float))
    (sentence_score : list (Sentence * Q)) word :
  Dict.keys scores = Dict.keys sentence_score →
  Dict.keys (score_word_float weights sentence scores word)
  = Dict.keys (score_word word_frequencies sentence sentence_score word).
Proof.
  intros Hkeys. unfold score_word_float, score_word.
  pose proof (same_keys (lower word)) as Hsame.
  destruct (weights !! lower word) as [x|],
           (word_frequencies !! lower word) as [q|].
  - destruct (Dict.get scores sentence) as [x'|] eqn:H1,
             (Dict.get sentence_score sentence) as [q'|] eqn:H2;
      rewrite !keys_set, H1, H2; [done | | | by rewrite Hkeys].
    + exfalso. apply get_Some_keys in H1. apply get_None_keys in H2.
      by rewrite Hkeys in H1.
    + exfalso. apply get_Some_keys in H2. apply get_None_keys in H1.
      by rewrite Hkeys in H1.
  - exfalso. eapply is_Some_None. apply Hsame. by eexists.
  - exfalso. eapply is_Some_None. apply Hsame. by eexists.
  - done.
Qed.

Lemma foldl_score_word_float_keys sentence words
    (scores : list (Sentence * PrimFloat.float))
    (sentence_score : list (Sentence * Q)) :
  Dict.keys scores = Dict.keys sentence_score →
  Dict.keys (foldl (score_word_float weights sentence) scores words)
  = Dict.keys (foldl (score_word word_frequencies sentence) sentence_score
                     words).
Proof.
  revert scores sentence_score.
  induction words as [|word words IH]; intros scores sentence_score Hkeys;
    [done|].
  cbn [foldl]. by apply IH, score_word_float_keys.
Qed.

Lemma foldl_score_sentence_float_keys sentences
    (scores : list (Sentence * PrimFloat.float))
    (sentence_score : list (Sentence * Q)) :
  Dict.keys scores = Dict.keys sentence_score →
  Dict.keys (foldl (score_sentence_float weights) scores sentences)
  = Dict.keys (foldl (score_sentence word_frequencies) sentence_score
                     sentences).
Proof.
  revert scores sentence_score.
  induction sentences as [|sentence sentences IH];
    intros scores sentence_score Hkeys; [done|].
  cbn [foldl]. apply IH. unfold score_sentence_float, score_sentence.
  by apply foldl_score_word_float_keys.
Qed.

Lemma score_sentences_float_same_keys sentence_tokens :
  Dict.keys (score_sentences_float weights sentence_tokens)
  = Dict.keys (score_sentences word_frequencies sentence_tokens).
Proof.
  unfold score_sentences_float, score_sentences.
  by apply foldl_score_sentence_float_keys.
Qed.

End SameKeys.

Lemma score_sentences_float_keys (weights : gmap string PrimFloat.float)
    sentence_tokens :
  Dict.keys (score_sentences_float weights sentence_tokens)
  = Dict.keys (score_sentences ((λ _, 0%Q) <$> weights) sentence_tokens).
Proof.
  apply score_sentences_float_same_keys. intros key.
  by rewrite lookup_fmap, fmap_is_Some.
Qed.

(** The keys of the score mapping are the sentences of the document that
    have a token whose lowercased form is a key of the weight mapping. *)
Lemma score_sentences_float_elem_of (weights : gmap string PrimFloat.float)
    sentence_tokens s :
  s ∈ Dict.keys (score_sentences_float weights sentence_tokens)
  ↔ sentence_tokens !! s.1 = Some s.2
    ∧ ∃ word, word ∈ span_words s.2 ∧ is_Some (weights !! lower word).
Proof.
  rewrite score_sentences_float_keys, score_sentences_keys.
  rewrite list_elem_of_filter, is_scored_true, looked_up_weights_nonempty.
  destruct s as [i sentence]. rewrite elem_of_enumerate. simpl.
  setoid_rewrite lookup_fmap. setoid_rewrite fmap_is_Some.
  split; intros [? ?]; by split.
Qed.

Lemma score_sentences_float_NoDup (weights : gmap string PrimFloat.float)
    sentence_tokens :
  NoDup (Dict.keys (score_sentences_float weights sentence_tokens)).
Proof. rewrite score_sentences_float_keys. apply score_sentences_NoDup. Qed.

Lemma score_sentences_float_length (weights : gmap string PrimFloat.float)
    sentence_tokens :
  (length (score_sentences_float weights sentence_tokens)
   ≤ length sentence_tokens)%nat.
Proof.
  rewrite <- (length_fmap fst).
  fold (Dict.keys (score_sentences_float weights sentence_tokens)).
  rewrite score_sentences_float_keys. unfold Dict.keys. rewrite length_fmap.
  apply score_sentences_length.
Qed.

(** The mapping that [nlargest] walks is in document order. *)
Lemma score_values_in_document_order (weights : gmap string PrimFloat.float)
    sentence_tokens :
  in_document_order
    (score_values (score_sentences_float weights sentence_tokens)).
Proof.
  apply (StronglySorted_fmap_inv (λ s1 s2 : Sentence, (s1.1 < s2.1)%nat) fst).
  fold (Dict.keys
          (score_values (score_sentences_float weights sentence_tokens))).
  rewrite score_values_keys, score_sentences_float_keys, score_sentences_keys.
  apply StronglySorted_filter, imap_increasing. done.
Qed.

Lemma normalize_float_list (entries : list (string * nat)) max_frequency :
  (1 ≤ max_frequency)%nat →
  foldr (λ entry acc,
           weights ← acc;
           weight ← true_div_float entry.2 max_frequency;
           Some (<[entry.1 := weight]> weights))
        (Some ∅) entries
  = Some (list_to_map
            (prod_map id
               (λ n, PrimFloat.div (float_of_int (Z.of_nat n))
                                   (float_of_int (Z.of_nat max_frequency)))
             <$> entries)
          : gmap string PrimFloat.float).
Proof.
  intros Hmax. induction entries as [|[word n] entries IH]; [done|].
  cbn [foldr]. rewrite IH. simpl.
  destruct max_frequency; [lia | done].
Qed.

(** With a positive [max_frequency] no division fails, and the keys stay
    the same. *)
Lemma normalize_float_fmap (word_frequencies : gmap string nat)
    max_frequency :
  (1 ≤ max_frequency)%nat →
  normalize_float word_frequencies max_frequency
  = Some ((λ n, PrimFloat.div (float_of_int (Z.of_nat n))
                              (float_of_int (Z.of_nat max_frequency)))
          <$> word_frequencies).
Proof.
  intros Hmax. unfold normalize_float. rewrite normalize_float_list by done.
  by rewrite list_to_map_fmap, list_to_map_to_list.
Qed.

(** What [summary_sentences_float] returns is ordered as C6 says. *)
Lemma summary_sentences_float_order (weights : gmap string PrimFloat.float)
    sentence_tokens summary_length selected :
  summary_sentences_float sentence_tokens
    (score_sentences_float weights sentence_tokens) summary_length
  = Some selected →
  let sentence_score :=
    score_values (score_sentences_float weights sentence_tokens) in
  (∀ a b s s', (a < b)%nat → selected !! a = Some s → selected !! b = Some s' →
     ranks_before sentence_score s s')
  ∧ (∀ s s', s ∈ selected → s' ∈ Dict.keys sentence_score → s' ∉ selected →
       ranks_before sentence_score s s').
Proof.
  unfold summary_sentences_float.
  destruct (select_length_float sentence_tokens summary_length) as [n|];
    [simpl | done].
  intros [= <-].
  destruct (nlargest_ranks _ n
              (score_values_in_document_order weights sentence_tokens))
    as (_ & _ & Hin & Hout).
  by split.
Qed.

(** The two readings of the arithmetic return the same error messages on
    the same texts. *)
Lemma summarize_text_float_Error text summary_length fraction message :
  summarize_text_float text summary_length = Some (Error message)
  ↔ summarize_text text fraction = Some (Error message).
Proof.
  unfold summarize_text_float, summarize_text.
  destruct (PyStr.is_empty (PyStr.strip text)); [done|].
  destruct (nlp text) as [document|]; [simpl | done].
  destruct (decide (count_words (doc_words document) = ∅)) as [|Hne]; [done|].
  destruct (max_frequency_spec _ Hne) as (max_frequency & Hmax & Hpos & _).
  rewrite Hmax. simpl.
  rewrite normalize_float_fmap, normalize_fmap by done. simpl.
  match goal with
  | |- context [score_sentences_float ?w ?l] =>
      match goal with
      | |- context [score_sentences ?w' l] =>
          assert (Dict.keys (score_sentences_float w l)
                  = Dict.keys (score_sentences w' l)) as Hkeys;
            [|destruct (score_sentences_float w l),
                       (score_sentences w' l); try done]
      end
  end.
  { apply score_sentences_float_same_keys. intros key.
    by rewrite !lookup_fmap, !fmap_is_Some. }
  unfold summary_sentences_float.
  destruct (select_length_float _ _); simpl; split; done.
Qed.

(** C4, amended: a returned summary holds
    min(max(1, int(n × fraction)), number of scored sentences)
    sentences, where n is the number of sentences of the document and the
    product is the rounded one of line 89; that is at least one and at
    most n.  The scored sentences are the entries of the score mapping:
    the sentences of the document with a token whose lowercased form is a
    key of the weight mapping, each once. *)
Theorem summary_sentence_count text summary_length summary sentence_tokens :
  summarize_text_float text summary_length
  = Some (Summary summary sentence_tokens) →
  ∃ document max_frequency weights product,
    nlp text = Some document
    ∧ sentence_tokens = doc_sents document
    ∧ py_max (map_to_list (count_words (doc_words document))).*2
      = Some max_frequency
    ∧ normalize_float (count_words (doc_words document)) max_frequency
      = Some weights
    ∧ py_int_float
        (PrimFloat.mul (float_of_int (Z.of_nat (length sentence_tokens)))
                       summary_length)
      = Some product
    ∧ let sentence_score := score_sentences_float weights sentence_tokens in
    let selected :=
      (nlargest snd (Z.max 1 product) (score_values sentence_score)).*1 in
    summary = PyStr.join " " (final_summary selected)
    ∧ length (final_summary selected) = length selected
    ∧ length selected
      = Nat.min (Z.to_nat (Z.max 1 product)) (length sentence_score)
    ∧ NoDup (Dict.keys sentence_score)
    ∧ (∀ s, s ∈ Dict.keys sentence_score
            ↔ sentence_tokens !! s.1 = Some s.2
              ∧ ∃ word, word ∈ span_words s.2
                        ∧ is_Some (weights !! lower word))
    ∧ (1 ≤ length selected)%nat
    ∧ (length selected ≤ length sentence_tokens)%nat.
Proof.
  unfold summarize_text_float.
  destruct (PyStr.is_empty (PyStr.strip text)); [done|].
  destruct (nlp text) as [document|]; [simpl | done].
  destruct (decide (count_words (doc_words document) = ∅)); [done|].
  destruct (py_max _) as [max_frequency|] eqn:Hmax; [simpl | done].
  destruct (normalize_float _ _) as [weights|] eqn:Hnorm; [simpl | done].
  destruct (score_sentences_float weights (doc_sents document))
    as [|entry rest] eqn:Hscore; [done|].
  rewrite <- Hscore. unfold summary_sentences_float, select_length_float.
  destruct (py_int_float _) as [product|] eqn:Hint; [simpl | done].
  intros [= <- <-]. exists document, max_frequency, weights, product.
  assert (length (nlargest snd (Z.max 1 product)
                    (score_values
                       (score_sentences_float weights (doc_sents document)))).*1
          = Nat.min (Z.to_nat (Z.max 1 product))
              (length (score_sentences_float weights (doc_sents document))))
    as Hlength.
  { by rewrite length_fmap, nlargest_length, score_values_length. }
  pose proof (score_sentences_float_length weights (doc_sents document))
    as Hbound.
  assert (1 ≤ length (score_sentences_float weights (doc_sents document)))%nat
    as Hscored by (rewrite Hscore; simpl; lia).
  split_and!;
    [done | done | done | done | done | done | | done | | | lia | lia].
  - unfold final_summary. by rewrite length_map.
  - apply score_sentences_float_NoDup.
  - apply score_sentences_float_elem_of.
Qed.

(** C9: between two fractions of (0, 1] the larger one selects at least
    as many sentences, and the fraction 1 selects the scored sentences,
    all of them and each once. *)
Theorem selection_monotone (word_frequencies : gmap string Q) sentence_tokens
    f1 f2 :
  (0 < f1)%Q → (f1 <= f2)%Q → (f2 <= 1)%Q →
  let sentence_score := score_sentences word_frequencies sentence_tokens in
  (length (summary_sentences sentence_tokens sentence_score f1)
   ≤ length (summary_sentences sentence_tokens sentence_score f2))%nat
  ∧ summary_sentences sentence_tokens sentence_score 1
    ≡ₚ Dict.keys sentence_score
  ∧ NoDup (summary_sentences sentence_tokens sentence_score 1).
Proof.
  intros Hf1 Hf12 Hf2 sentence_score.
  assert (summary_sentences sentence_tokens sentence_score 1
          ≡ₚ Dict.keys sentence_score) as Hall.
  { unfold summary_sentences, nlargest. rewrite take_ge.
    - by rewrite sorted_desc_Permutation.
    - rewrite sorted_desc_length, select_length_floor by lra.
      rewrite Qmult_1_r, Qfloor_Z.
      pose proof (score_sentences_length word_frequencies sentence_tokens)
        as Hlen.
      fold sentence_score in Hlen. lia. }
  split_and!; [| done | rewrite Hall; apply score_sentences_NoDup].
  rewrite !summary_sentences_length.
  assert (select_length sentence_tokens f1 ≤ select_length sentence_tokens f2)%Z;
    [|lia].
  rewrite !select_length_floor by lra.
  apply Z.max_le_compat_l, Qfloor_resp_le.
  rewrite !(Qmult_comm (inject_Z _)). apply Qmult_le_compat_r; [done|].
  Q_of_Z.
Qed.

(** C1, amended: when the text passes the empty-input check and some
    sentence of the document has a token whose lowercased form is a key of
    the frequency table, the function returns a summary of at least one
    sentence, each one a sentence of the document. *)
Theorem summarize_text_succeeds text summary_length document :
  PyStr.strip text ≠ "" →
  nlp text = Some document →
  (∃ sentence word,
     sentence ∈ doc_sents document
     ∧ word ∈ span_words sentence
     ∧ is_Some (count_words (doc_words document) !! lower word)) →
  ∃ selected,
    (1 ≤ length selected)%nat
    ∧ (∀ s, s ∈ selected → doc_sents document !! s.1 = Some s.2)
    ∧ summarize_text text summary_length
      = Some (Summary (PyStr.join " " (final_summary selected))
                      (doc_sents document)).
Proof.
  intros Htext Hdoc (sentence & word & Hsentence & Hword & Hkey).
  assert (count_words (doc_words document) ≠ ∅) as Hne.
  { intros Hempty. rewrite Hempty, lookup_empty in Hkey. by destruct Hkey. }
  destruct (summarize_text_scored text summary_length document Htext Hdoc Hne)
    as (max_frequency & weights & Hmax & Hnorm & Hresult).
  apply list_elem_of_lookup in Hsentence as [i Hi].
  pose proof (score_sentences_present weights _ _ _ Hi) as Hpresent.
  assert (is_Some (Dict.get (score_sentences weights (doc_sents document))
                            (i, sentence))) as [score Hscore].
  { apply Hpresent. exists word. split; [done|].
    destruct (max_frequency_spec _ Hne) as (mx & Hmx & Hpos & _).
    assert (mx = max_frequency) as -> by congruence.
    rewrite normalize_fmap in Hnorm by done. injection Hnorm as <-.
    rewrite lookup_fmap. by apply fmap_is_Some. }
  exists (summary_sentences (doc_sents document)
            (score_sentences weights (doc_sents document)) summary_length).
  rewrite summary_sentences_length.
  pose proof (select_length_pos (doc_sents document) summary_length).
  destruct (score_sentences weights (doc_sents document)) eqn:Hs; [done|].
  split_and!; [simpl; lia | | done].
  intros s Hin. apply (score_sentences_keys_lookup weights).
  rewrite Hs. unfold summary_sentences in Hin.
  apply list_elem_of_fmap in Hin as (e & -> & He%nlargest_elem_of).
  apply list_elem_of_fmap. by exists e.
Qed.

(** The other outcome: when no sentence has a token whose lowercased form
    is a key of the table, the score mapping is empty and the function
    returns the message for sentences that could not be scored. *)
Lemma summarize_text_unscored text summary_length document :
  PyStr.strip text ≠ "" →
  nlp text = Some document →
  count_words (doc_words document) ≠ ∅ →
  (∀ sentence word,
     sentence ∈ doc_sents document → word ∈ span_words sentence →
     count_words (doc_words document) !! lower word = None) →
  summarize_text text summary_length
  = Some (Error "Error: Could not score sentences").
Proof.
  intros Htext Hdoc Hne Hnone.
  destruct (summarize_text_scored text summary_length document Htext Hdoc Hne)
    as (max_frequency & weights & Hmax & Hnorm & ->).
  destruct (max_frequency_spec _ Hne) as (mx & Hmx & Hpos & _).
  assert (mx = max_frequency) as -> by congruence.
  rewrite normalize_fmap in Hnorm by done. injection Hnorm as <-.
  destruct (score_sentences _ (doc_sents document)) as [|[[i sentence] q] rest]
    eqn:Hscore; [done|]. exfalso.
  assert ((i, sentence) ∈ Dict.keys (score_sentences
            ((λ n, ratio n max_frequency) <$> count_words (doc_words document))
            (doc_sents document))) as Hin by (rewrite Hscore; left).
  rewrite score_sentences_keys in Hin.
  apply list_elem_of_filter in Hin as [Hscored Hi].
  apply elem_of_enumerate in Hi.
  apply is_scored_true, looked_up_weights_nonempty in Hscored
    as (word & Hword & Hkey).
  rewrite lookup_fmap, (Hnone sentence word) in Hkey; [by destruct Hkey | | done].
  by eapply list_elem_of_lookup_2.
Qed.

(** * Further properties of [summarize_text] *)

(** With the exact product [int()] has nothing to raise on: the function
    raises only when the model does. *)
Lemma summarize_text_None text summary_length :
  summarize_text text summary_length = None
  ↔ PyStr.strip text ≠ "" ∧ nlp text = None.
Proof.
  unfold summarize_text.
  destruct (PyStr.is_empty (PyStr.strip text)) eqn:Hempty.
  { apply is_empty_true in Hempty. split; [done | by intros [? _]]. }
  assert (PyStr.strip text ≠ "") as Htext.
  { intros Heq. by rewrite Heq in Hempty. }
  destruct (nlp text) as [document|] eqn:Hdoc; [|done]. simpl.
  split; [|by intros [_ ?]]. intros Hraise. exfalso.
  destruct (decide (count_words (doc_words document) = ∅)) as [|Hne];
    [done|].
  destruct (max_frequency_spec _ Hne) as (max_frequency & Hmax & Hpos & _).
  rewrite Hmax in Hraise. simpl in Hraise.
  rewrite normalize_fmap in Hraise by done. simpl in Hraise.
  by destruct (score_sentences _ _).
Qed.

(** The function raises in two cases only: the model raises, or a
    sentence has been scored and [int()] raises at line 89 on a product
    that is a nan or an infinity.  [max] is never given an empty table
    and the division never meets a zero. *)
Theorem summarize_text_raises text summary_length :
  summarize_text_float text summary_length = None
  ↔ PyStr.strip text ≠ ""
    ∧ (nlp text = None
       ∨ ∃ document,
           nlp text = Some document
           ∧ (∃ sentence word,
                sentence ∈ doc_sents document
                ∧ word ∈ span_words sentence
                ∧ is_Some (count_words (doc_words document) !! lower word))
           ∧ py_int_float
               (PrimFloat.mul
                  (float_of_int (Z.of_nat (length (doc_sents document))))
                  summary_length)
             = None).
Proof.
  unfold summarize_text_float.
  destruct (PyStr.is_empty (PyStr.strip text)) eqn:Hempty.
  { apply is_empty_true in Hempty. split; [done | by intros [? _]]. }
  assert (PyStr.strip text ≠ "") as Htext.
  { intros Heq. by rewrite Heq in Hempty. }
  destruct (nlp text) as [document|] eqn:Hdoc; simpl;
    [|split; [intros _; split; [done | by left] | done]].
  destruct (decide (count_words (doc_words document) = ∅)) as [Hnone|Hne].
  { split; [done|].
    intros [_ [?|(document' & [= <-] & (sentence & word & _ & _ & Hkey) & _)]];
      [done|].
    rewrite Hnone, lookup_empty in Hkey. by apply is_Some_None in Hkey. }
  destruct (max_frequency_spec _ Hne) as (max_frequency & Hmax & Hpos & _).
  rewrite Hmax. simpl. rewrite normalize_float_fmap by done. simpl.
  set (weights := (λ n, PrimFloat.div (float_of_int (Z.of_nat n))
                          (float_of_int (Z.of_nat max_frequency)))
                  <$> count_words (doc_words document)).
  assert (∀ key, is_Some (weights !! key)
                 ↔ is_Some (count_words (doc_words document) !! key))
    as Hkeys.
  { intros key. unfold weights. by rewrite lookup_fmap, fmap_is_Some. }
  pose proof (score_sentences_float_elem_of weights (doc_sents document))
    as Hscored.
  destruct (score_sentences_float weights (doc_sents document))
    as [|entry rest].
  { split; [done|].
    intros [_ [?|(document' & [= <-] & (sentence & word & Hs & Hw & Hkey) & _)]];
      [done|].
    apply list_elem_of_lookup in Hs as [i Hi].
    assert ((i, sentence) ∈ Dict.keys ([] : list (Sentence * PrimFloat.float)))
      as Hin; [|by apply elem_of_nil in Hin].
    apply Hscored. split; [done|]. exists word. split; [done|].
    by apply Hkeys. }
  unfold summary_sentences_float, select_length_float.
  destruct (py_int_float _) as [product|] eqn:Hint; simpl.
  { split; [done|].
    intros [_ [?|(document' & [= <-] & _ & Hraise)]]; [done | congruence]. }
  split; [intros _ | done]. split; [done|]. right. exists document.
  split_and!; [done | | done].
  destruct (proj1 (Hscored entry.1) ltac:(left)) as (Hi & word & Hword & Hkey).
  exists entry.1.2, word.
  split_and!; [by eapply list_elem_of_lookup_2 | done | by apply Hkeys].
Qed.

(** No sentence comes twice in a summary, and each one is a sentence of
    the document that has a weighted token. *)
Theorem summary_without_repetition (word_frequencies : gmap string Q)
    sentence_tokens summary_length :
  let selected :=
    summary_sentences sentence_tokens
      (score_sentences word_frequencies sentence_tokens) summary_length in
  NoDup selected
  ∧ ∀ s, s ∈ selected →
         sentence_tokens !! s.1 = Some s.2
         ∧ is_scored word_frequencies s = true.
Proof.
  intros selected. unfold selected, summary_sentences, nlargest.
  rewrite fmap_take. split.
  - eapply sublist_NoDup; [|apply sublist_take].
    rewrite sorted_desc_Permutation. apply score_sentences_NoDup.
  - intros s Hs.
    assert (s ∈ Dict.keys (score_sentences word_frequencies sentence_tokens))
      as Hkey.
    { unfold Dict.keys. rewrite <- (sorted_desc_Permutation snd).
      eapply elem_of_sublist; [done | apply sublist_take]. }
    split; [by apply (score_sentences_keys_lookup word_frequencies)|].
    rewrite score_sentences_keys in Hkey.
    by apply list_elem_of_filter in Hkey as [? _].
Qed.

Lemma py_int_mono x y : (x <= y)%Q → (py_int x ≤ py_int y)%Z.
Proof.
  destruct x as [nx dx], y as [ny dy]. unfold Qle, py_int. simpl. intros Hle.
  rewrite <- (Z.quot_mul_cancel_r nx (Z.pos dx) (Z.pos dy)) by lia.
  rewrite <- (Z.quot_mul_cancel_r ny (Z.pos dy) (Z.pos dx)) by lia.
  rewrite (Z.mul_comm (Z.pos dy) (Z.pos dx)).
  apply Z.quot_le_mono; lia.
Qed.

Lemma select_length_mono sentence_tokens f1 f2 :
  (f1 <= f2)%Q →
  (select_length sentence_tokens f1 ≤ select_length sentence_tokens f2)%Z.
Proof.
  intros Hle. unfold select_length. apply Z.max_le_compat_l, py_int_mono.
  rewrite !(Qmult_comm (inject_Z _)). apply Qmult_le_compat_r; [done|].
  Q_of_Z.
Qed.

(** A larger fraction keeps the summary of a smaller one and appends to
    it: the shorter summary is the beginning of the longer. *)
Theorem summary_grows_by_appending sentence_tokens
    (sentence_score : list (Sentence * Q)) f1 f2 :
  (f1 <= f2)%Q →
  summary_sentences sentence_tokens sentence_score f1
  `prefix_of` summary_sentences sentence_tokens sentence_score f2.
Proof.
  intros Hle%(select_length_mono sentence_tokens).
  unfold summary_sentences, nlargest.
  set (sorted := sorted_desc snd sentence_score).
  set (n1 := Z.to_nat (select_length sentence_tokens f1)).
  set (n2 := Z.to_nat (select_length sentence_tokens f2)).
  exists ((take (n2 - n1) (drop n1 sorted)).*1).
  rewrite <- fmap_app, take_take_drop. do 2 f_equal. lia.
Qed.

Lemma Qsum_le_length weights :
  Forall (λ w, (w <= 1)%Q) weights →
  (Qsum weights <= inject_Z (Z.of_nat (length weights)))%Q.
Proof.
  induction 1 as [|w weights Hw _ IH]; [done|].
  cbn [Qsum foldr length]. fold (Qsum weights).
  rewrite Nat2Z.inj_succ, <- Z.add_1_l, inject_Z_plus.
  change (inject_Z 1) with 1%Q. lra.
Qed.

Lemma looked_up_weights_length (word_frequencies : gmap string Q) words :
  (length (looked_up_weights word_frequencies words) ≤ length words)%nat.
Proof.
  induction words as [|word words IH]; [done|].
  rewrite looked_up_weights_cons.
  destruct (word_frequencies !! lower word); simpl; lia.
Qed.

(** The score of a sentence is at most the number of its tokens. *)
Theorem sentence_score_at_most_length words max_frequency weights
    sentence_tokens sentence score :
  py_max (map_to_list (count_words words)).*2 = Some max_frequency →
  normalize (count_words words) max_frequency = Some weights →
  Dict.get (score_sentences weights sentence_tokens) sentence = Some score →
  (score <= inject_Z (Z.of_nat (length (span_words sentence.2))))%Q.
Proof.
  intros Hmax Hnorm. rewrite score_sentences_get.
  case_decide; [|done]. intros Hacc%accumulate_sum. rewrite Hacc.
  assert (count_words words ≠ ∅) as Hne.
  { intros Hempty. by rewrite Hempty, map_to_list_empty in Hmax. }
  destruct (max_frequency_spec words Hne) as (mx & Hmx & Hpos & _ & Hle).
  assert (mx = max_frequency) as -> by congruence.
  rewrite normalize_fmap in Hnorm by done. injection Hnorm as <-.
  eapply Qle_trans; [apply Qsum_le_length|].
  - apply Forall_forall. intros w Hw. unfold looked_up_weights in Hw.
    apply list_elem_of_omap in Hw as (word & _ & Hword).
    rewrite lookup_fmap in Hword.
    destruct (count_words words !! lower word) as [n|] eqn:Hn; [|done].
    injection Hword as <-. apply ratio_le_1; [done | by eapply Hle].
  - rewrite <- Zle_Qle. apply inj_le, looked_up_weights_length.
Qed.

(** The weight of a word is the number of times its surface form passed
    the filter, over the largest such number; a surface form that never
    passed has no weight. *)
Theorem word_weight_is_relative_count words max_frequency weights :
  py_max (map_to_list (count_words words)).*2 = Some max_frequency →
  normalize (count_words words) max_frequency = Some weights →
  (∀ key,
     weights !! key
     = match occurrences key words with
       | O => None
       | S n => Some (ratio (S n) max_frequency)
       end)
  ∧ (∀ key, (occurrences key words ≤ max_frequency)%nat)
  ∧ (∃ key, occurrences key words = max_frequency)
  ∧ (1 ≤ max_frequency)%nat.
Proof.
  intros Hmax Hnorm.
  assert (count_words words ≠ ∅) as Hne.
  { intros Hempty. by rewrite Hempty, map_to_list_empty in Hmax. }
  destruct (max_frequency_spec words Hne)
    as (mx & Hmx & Hpos & [top Htop] & Hle).
  assert (mx = max_frequency) as -> by congruence.
  rewrite normalize_fmap in Hnorm by done. injection Hnorm as <-.
  split_and!; [| | | done].
  - intros key. rewrite lookup_fmap, count_words_lookup.
    by destruct (occurrences key words).
  - intros key. pose proof (Hle key) as Hkey.
    rewrite count_words_lookup in Hkey.
    destruct (occurrences key words) as [|n]; [lia|]. by apply Hkey.
  - exists top. rewrite count_words_lookup in Htop.
    destruct (occurrences top words); [done|]. by injection Htop.
Qed.

Lemma total_count_insert_None (m : gmap string nat) key n :
  m !! key = None → total_count (<[key := n]> m) = (n + total_count m)%nat.
Proof.
  intros Hkey. unfold total_count. by rewrite map_to_list_insert.
Qed.

Lemma total_count_insert_Some (m : gmap string nat) key n n' :
  m !! key = Some n →
  (total_count (<[key := n']> m) + n = total_count m + n')%nat.
Proof.
  intros Hkey.
  rewrite <- (insert_delete_eq m key n').
  rewrite total_count_insert_None by apply lookup_delete_eq.
  unfold total_count at 2.
  rewrite <- (insert_id m key n Hkey), <- insert_delete_eq.
  rewrite map_to_list_insert by apply lookup_delete_eq.
  rewrite insert_delete_eq, (insert_id m key n Hkey). csimpl.
  unfold total_count. lia.
Qed.

Lemma total_count_foldl words (m : gmap string nat) :
  total_count (foldl count_word m words)
  = (total_count m + length (filter (λ w, is_counted w = true) words))%nat.
Proof.
  revert m. induction words as [|word words IH]; intros m; [simpl; lia|].
  cbn [foldl]. rewrite IH, filter_cons.
  destruct (is_counted word) eqn:Hc.
  - rewrite decide_True by done. rewrite count_word_counted by done.
    destruct (m !! word) as [n|] eqn:Hn; simpl.
    + pose proof (total_count_insert_Some m word n (S n) Hn). lia.
    + rewrite total_count_insert_None by done. lia.
  - rewrite decide_False by done. by rewrite count_word_skipped.
Qed.

(** Each token that passes the filter is counted once: the counts of the
    table add up to the number of such tokens. *)
Theorem counts_add_up words :
  total_count (count_words words)
  = length (filter (λ word, is_counted word = true) words).
Proof.
  unfold count_words. rewrite total_count_foldl.
  unfold total_count. by rewrite map_to_list_empty.
Qed.

Section FilteredTokens.
Hypothesis lower_idempotent : ∀ s, lower (lower s) = lower s.

(** A token whose lowercased form is a stopword or lies in the
    punctuation string finds no weight, whatever text the table was built
    from; a sentence made of such tokens has no score. *)
Theorem filtered_tokens_carry_no_weight words max_frequency weights :
  py_max (map_to_list (count_words words)).*2 = Some max_frequency →
  normalize (count_words words) max_frequency = Some weights →
  (∀ word,
     lower word ∈ STOP_WORDS ∨ PyStr.contains punctuation (lower word) = true →
     weights !! lower word = None)
  ∧ (∀ sentence_tokens i sentence,
       sentence_tokens !! i = Some sentence →
       (∀ word, word ∈ span_words sentence →
          lower word ∈ STOP_WORDS
          ∨ PyStr.contains punctuation (lower word) = true) →
       Dict.get (score_sentences weights sentence_tokens) (i, sentence) = None).
Proof.
  intros Hmax Hnorm.
  assert (∀ word,
            lower word ∈ STOP_WORDS
            ∨ PyStr.contains punctuation (lower word) = true →
            weights !! lower word = None) as Hnone.
  { assert (count_words words ≠ ∅) as Hne.
    { intros Hempty. by rewrite Hempty, map_to_list_empty in Hmax. }
    destruct (max_frequency_spec words Hne) as (mx & Hmx & Hpos & _).
    assert (mx = max_frequency) as -> by congruence.
    rewrite normalize_fmap in Hnorm by done. injection Hnorm as <-.
    intros word Hword. rewrite lookup_fmap.
    destruct (count_words words !! lower word) as [n|] eqn:Hn; [|done].
    exfalso.
    assert (is_counted (lower word) = true) as Hc.
    { eapply count_words_is_Some. by eexists. }
    unfold is_counted in Hc. cbv zeta in Hc. rewrite lower_idempotent in Hc.
    apply andb_true_iff in Hc as [Hstop Hpunct].
    apply bool_decide_eq_true in Hstop. apply negb_true_iff in Hpunct.
    destruct Hword as [?|Hin]; [done | congruence]. }
  split; [exact Hnone|].
  intros sentence_tokens i sentence Hi Hwords.
  apply eq_None_not_Some.
  intros (word & Hin & [w Hw])%(score_sentences_present weights _ _ _ Hi).
  rewrite Hnone in Hw; [done | by apply Hwords].
Qed.

End FilteredTokens.

(** * The functions around [summarize_text] *)

(** ** [extract_video_id] *)

(** A text that holds the separator splits in two parts at least. *)
Lemma split_two sep s :
  sep ≠ "" → PyStr.contains s sep = true →
  ∃ first second rest, PyStr.split sep s = first :: second :: rest.
Proof.
  intros Hsep Hs. pose proof (join_split sep s Hsep) as Hjoin.
  pose proof (split_free sep s Hsep) as Hfree.
  destruct (PyStr.split sep s) as [|first [|second rest]] eqn:Hsplit.
  - by apply split_go_nonempty in Hsplit.
  - simpl in Hjoin. subst first. apply Forall_inv in Hfree. congruence.
  - by exists first, second, rest.
Qed.

Lemma join_head sep part parts :
  ∃ tail, PyStr.join sep (part :: parts) = part +:+ tail
          ∧ (tail = "" ∨ String.prefix sep tail = true).
Proof.
  destruct parts as [|part' parts].
  - exists "". split; [by rewrite append_empty_r | by left].
  - exists (sep +:+ PyStr.join sep (part' :: parts)).
    split; [by rewrite join_cons | right]. apply prefix_app. by eexists.
Qed.

(** [s.split(sep1)[1].split(sep2)[0]] for a text that holds [sep1]: the
    text between the first [sep1] and the next [sep2] or [sep1], or the
    end. *)
Lemma split_between sep1 sep2 s :
  sep1 ≠ "" → sep2 ≠ "" → PyStr.contains s sep1 = true →
  ∃ before part between after,
    PyStr.split sep1 s !! 1%nat = Some part
    ∧ PyStr.split sep2 part !! 0%nat = Some between
    ∧ s = before +:+ sep1 +:+ between +:+ after
    ∧ PyStr.contains before sep1 = false
    ∧ PyStr.contains between sep1 = false
    ∧ PyStr.contains between sep2 = false
    ∧ (after = "" ∨ String.prefix sep2 after = true
       ∨ String.prefix sep1 after = true).
Proof.
  intros Hsep1 Hsep2 Hs.
  destruct (split_two sep1 s Hsep1 Hs) as (first & second & rest & Hsplit).
  pose proof (join_split sep1 s Hsep1) as Hjoin.
  pose proof (split_free sep1 s Hsep1) as Hfree.
  rewrite Hsplit in Hjoin, Hfree.
  apply Forall_cons in Hfree as [Hfirst [Hsecond _]%Forall_cons].
  rewrite join_cons in Hjoin by done.
  destruct (join_head sep1 second rest) as (tail1 & Htail1 & Hcase1).
  rewrite Htail1 in Hjoin.
  pose proof (join_split sep2 second Hsep2) as Hjoin2.
  pose proof (split_free sep2 second Hsep2) as Hfree2.
  destruct (PyStr.split sep2 second) as [|between parts] eqn:Hsplit2.
  { by apply split_go_nonempty in Hsplit2. }
  apply Forall_cons in Hfree2 as [Hbetween _].
  destruct (join_head sep2 between parts) as (tail2 & Htail2 & Hcase2).
  rewrite Htail2 in Hjoin2.
  exists first, second, between, (tail2 +:+ tail1).
  rewrite Hsplit, Hsplit2. split_and!; [done | done | | done | | done |].
  - by rewrite <- Hjoin, <- Hjoin2, !append_assoc.
  - apply not_true_is_false. intros Hin%(contains_app_l _ tail2).
    rewrite Hjoin2 in Hin. congruence.
  - destruct Hcase2 as [->|Hpre].
    + destruct Hcase1 as [->|?]; [by left | by right; right].
    + right; left. apply prefix_app in Hpre as [post ->].
      apply prefix_app. exists (post +:+ tail1). by rewrite append_assoc.
Qed.

Lemma extract_video_id_is_Some url : is_Some (extract_video_id url).
Proof.
  unfold extract_video_id.
  destruct (pytube_video_id url) as [video_id|]; [by eexists|].
  destruct (PyStr.contains url "youtube.com/watch?v=") eqn:Hwatch.
  { assert (PyStr.contains url "v=" = true) as Hv.
    { eapply contains_trans; [exact Hwatch | done]. }
    destruct (split_between "v=" "&" url)
      as (? & part & video_id & ? & -> & Hid & _); [done..|].
    simpl. rewrite Hid. by eexists. }
  destruct (PyStr.contains url "youtu.be/") eqn:Hshort; [|by eexists].
  destruct (split_between "youtu.be/" "?" url)
    as (? & part & video_id & ? & -> & Hid & _); [done..|].
  simpl. rewrite Hid. by eexists.
Qed.

(** The function raises nothing, not even in its handler: the part that
    line 31 or line 33 picks is there.  It returns [None] exactly when
    pytube fails and the URL holds neither of the two patterns. *)
Theorem extract_video_id_never_raises url :
  ∃ result,
    extract_video_id url = Some result
    ∧ (result = None
       ↔ pytube_video_id url = None
         ∧ PyStr.contains url "youtube.com/watch?v=" = false
         ∧ PyStr.contains url "youtu.be/" = false).
Proof.
  unfold extract_video_id.
  destruct (pytube_video_id url) as [video_id|] eqn:Hpytube.
  { eexists. split; [done|]. split; [done | by intros [? _]]. }
  destruct (PyStr.contains url "youtube.com/watch?v=") eqn:Hwatch.
  { assert (PyStr.contains url "v=" = true) as Hv.
    { eapply contains_trans; [exact Hwatch | done]. }
    destruct (split_between "v=" "&" url)
      as (? & part & video_id & ? & -> & Hid & _); [done..|].
    simpl. rewrite Hid. eexists. split; [done|]. split; [done | by intros (_ & ? & _)]. }
  destruct (PyStr.contains url "youtu.be/") eqn:Hshort.
  { destruct (split_between "youtu.be/" "?" url)
      as (? & part & video_id & ? & -> & Hid & _); [done..|].
    simpl. rewrite Hid. eexists. split; [done|]. split; [done | by intros (_ & _ & ?)]. }
  eexists. by split.
Qed.

(** When pytube fails on a URL that holds "youtube.com/watch?v=", the
    identifier is what stands between the first "v=" of the URL and the
    next "&" or "v=", or the end of the URL. *)
Theorem extract_video_id_watch url :
  pytube_video_id url = None →
  PyStr.contains url "youtube.com/watch?v=" = true →
  ∃ before video_id after,
    extract_video_id url = Some (Some video_id)
    ∧ url = before +:+ "v=" +:+ video_id +:+ after
    ∧ PyStr.contains before "v=" = false
    ∧ PyStr.contains video_id "v=" = false
    ∧ PyStr.contains video_id "&" = false
    ∧ (after = "" ∨ String.prefix "&" after = true
       ∨ String.prefix "v=" after = true).
Proof.
  intros Hpytube Hwatch. unfold extract_video_id. rewrite Hpytube, Hwatch.
  assert (PyStr.contains url "v=" = true) as Hv.
  { eapply contains_trans; [exact Hwatch | done]. }
  destruct (split_between "v=" "&" url)
    as (before & part & video_id & after & -> & Hid & Hrest); [done..|].
  simpl. rewrite Hid. by exists before, video_id, after.
Qed.

(** When pytube fails on a URL that holds "youtu.be/" and not
    "youtube.com/watch?v=", the identifier is what stands between the
    first "youtu.be/" and the next "?" or "youtu.be/", or the end. *)
Theorem extract_video_id_short url :
  pytube_video_id url = None →
  PyStr.contains url "youtube.com/watch?v=" = false →
  PyStr.contains url "youtu.be/" = true →
  ∃ before video_id after,
    extract_video_id url = Some (Some video_id)
    ∧ url = before +:+ "youtu.be/" +:+ video_id +:+ after
    ∧ PyStr.contains before "youtu.be/" = false
    ∧ PyStr.contains video_id "youtu.be/" = false
    ∧ PyStr.contains video_id "?" = false
    ∧ (after = "" ∨ String.prefix "?" after = true
       ∨ String.prefix "youtu.be/" after = true).
Proof.
  intros Hpytube Hwatch Hshort. unfold extract_video_id.
  rewrite Hpytube, Hwatch, Hshort.
  destruct (split_between "youtu.be/" "?" url)
    as (before & part & video_id & after & -> & Hid & Hrest); [done..|].
  simpl. rewrite Hid. by exists before, video_id, after.
Qed.

(** ** [get_video_transcript] *)

Lemma join_transcript_all_space transcript acc :
  PyStr.all_space (foldl (λ text elem, text +:+ " " +:+ elem) acc transcript)
  = PyStr.all_space acc && forallb PyStr.all_space transcript.
Proof.
  revert acc. induction transcript as [|elem transcript IH]; intros acc.
  - by rewrite andb_true_r.
  - cbn [foldl forallb]. rewrite IH, !all_space_app. simpl.
    by rewrite andb_assoc.
Qed.

Lemma transcript_text_no_newline transcript :
  PyStr.contains (transcript_text transcript) PyStr.newline = false.
Proof.
  unfold transcript_text, PyStr.replace.
  apply contains_char_join; [done|]. by apply split_free.
Qed.

(** The text built from a transcript is one line, in the function and in
    the script: no line feed is left in it. *)
Theorem transcript_text_one_line transcript :
  PyStr.contains (transcript_text transcript) PyStr.newline = false.
Proof. apply transcript_text_no_newline. Qed.

Lemma get_video_transcript_stripped video_id text :
  get_video_transcript video_id = Some text → PyStr.strip text = text.
Proof.
  unfold get_video_transcript.
  destruct (get_transcript video_id) as [transcript|]; [|done].
  intros [= <-]. apply strip_idempotent.
Qed.

(** What the function returns has no line feed and no whitespace at
    either end. *)
Theorem transcript_is_clean video_id text :
  get_video_transcript video_id = Some text →
  PyStr.contains text PyStr.newline = false ∧ PyStr.strip text = text.
Proof.
  intros Hget. split; [|by eapply get_video_transcript_stripped].
  unfold get_video_transcript in Hget.
  destruct (get_transcript video_id) as [transcript|]; [|done].
  injection Hget as <-. apply not_true_is_false. intros Hin.
  destruct (strip_middle (transcript_text transcript))
    as (pre & post & Heq & _).
  apply (contains_app_l _ post), (contains_app_r pre) in Hin.
  rewrite <- Heq in Hin.
  by rewrite transcript_text_no_newline in Hin.
Qed.

(** The function returns the empty string, which its callers take for a
    missing transcript, exactly when the service answers and every entry
    of the transcript is blank. *)
Theorem blank_transcript_is_empty video_id :
  get_video_transcript video_id = Some ""
  ↔ ∃ transcript,
      get_transcript video_id = Some transcript
      ∧ Forall (λ elem, PyStr.all_space elem = true) transcript.
Proof.
  unfold get_video_transcript.
  destruct (get_transcript video_id) as [transcript|];
    [|split; [done | by intros (? & ? & _)]].
  simpl.
  assert (PyStr.strip (transcript_text transcript) = ""
          ↔ Forall (λ elem, PyStr.all_space elem = true) transcript) as Hblank.
  { rewrite strip_empty. unfold transcript_text, join_transcript.
    rewrite all_space_replace_newline, join_transcript_all_space. simpl.
    by rewrite forallb_forall, Forall_forall; setoid_rewrite list_elem_of_In. }
  split.
  - intros [= Heq]. exists transcript. by rewrite <- Hblank.
  - intros (? & [= <-] & Hall). f_equal. by apply Hblank.
Qed.

(** ** [summarize_youtube_video_streamlit] and [batch_summarize] *)

(** A transcript that is not empty passes the first check of
    [summarize_text]. *)
Lemma transcript_passes_check video_id text :
  get_video_transcript video_id = Some text → text ≠ "" →
  PyStr.strip text ≠ "".
Proof. intros Hget%get_video_transcript_stripped. by rewrite Hget. Qed.

Lemma summarize_text_outcomes text summary_length :
  PyStr.strip text ≠ "" →
  summarize_text text summary_length = None
  ∨ summarize_text text summary_length
    = Some (Error "Error: No meaningful words found in text")
  ∨ summarize_text text summary_length
    = Some (Error "Error: Could not score sentences")
  ∨ ∃ summary sentence_tokens,
      summarize_text text summary_length
      = Some (Summary summary sentence_tokens).
Proof.
  intros Htext. unfold summarize_text.
  destruct (PyStr.is_empty (PyStr.strip text)) eqn:Hempty.
  { by apply is_empty_true in Hempty. }
  destruct (nlp text) as [document|]; [simpl | by left].
  destruct (decide _); [by right; left|].
  destruct (py_max _); [simpl | by left].
  destruct (normalize _ _); [simpl | by left].
  destruct (score_sentences _ _); [by right; right; left|].
  right; right; right. by eexists _, _.
Qed.

Lemma transcript_outcome_of text video_id summary_length result :
  get_video_transcript video_id = Some text → text ≠ "" →
  summarize_text text summary_length = Some result →
  transcript_outcome summary_length (summary_or_message result).
Proof.
  intros Hget Htext Hresult. unfold transcript_outcome.
  pose proof (transcript_passes_check _ _ Hget Htext) as Hstrip.
  destruct (summarize_text_outcomes text summary_length Hstrip)
    as [Hcase|[Hcase|[Hcase|(summary & sentence_tokens & Hcase)]]];
    rewrite Hcase in Hresult; [done|..]; injection Hresult as <-.
  - by left.
  - by right; left.
  - right; right. by exists video_id, text, sentence_tokens.
Qed.

(** What the web page receives is one of five messages or the summary of
    a transcript; the message of [summarize_text] for an empty text is not
    among them, since a transcript that is not empty passes that check.
    Whatever is not a summary begins with "Error:", which is what the page
    tests. *)
Theorem streamlit_outcomes url summary_length :
  let shown := summarize_youtube_video_streamlit url summary_length in
  (shown = "Error: Could not extract video ID from URL"
   ∨ shown = "Error: No transcript found for this video"
   ∨ shown = "Error: " +:+ str_e
   ∨ transcript_outcome summary_length shown)
  ∧ (String.prefix "Error:" shown = false →
     ∃ video_id text sentence_tokens,
       get_video_transcript video_id = Some text
       ∧ summarize_text text summary_length
         = Some (Summary shown sentence_tokens)).
Proof.
  intros shown.
  assert (shown = "Error: Could not extract video ID from URL"
          ∨ shown = "Error: No transcript found for this video"
          ∨ shown = "Error: " +:+ str_e
          ∨ transcript_outcome summary_length shown) as Hcases.
  { unfold shown, summarize_youtube_video_streamlit.
    destruct (extract_video_id_is_Some url) as [video_id ->]. simpl.
    destruct video_id as [[|c video_id]|]; [by left | | by left].
    destruct (get_video_transcript (String c video_id))
      as [[|d text]|] eqn:Hget; [by right; left | | by right; left].
    destruct model_available; [|by right; right; left].
    destruct (summarize_text (String d text) summary_length)
      as [result|] eqn:Hresult; [|by right; right; left].
    right; right; right. simpl. by eapply transcript_outcome_of. }
  split; [exact Hcases|]. intros Hprefix.
  destruct Hcases as [Heq|[Heq|[Heq|[Heq|[Heq|Hsummary]]]]];
    [by rewrite Heq in Hprefix.. | exact Hsummary].
Qed.

Lemma batch_entry_Some summary_length url entry :
  batch_entry summary_length url = Some entry →
  entry.1 = url
  ∧ (entry.2 = "Invalid URL" ∨ entry.2 = "No transcript available"
     ∨ transcript_outcome summary_length entry.2).
Proof.
  unfold batch_entry.
  destruct (extract_video_id_is_Some url) as [video_id ->]. simpl.
  destruct video_id as [[|c video_id]|];
    [by intros [= <-]; split; [|left] | | by intros [= <-]; split; [|left]].
  destruct (get_video_transcript (String c video_id))
    as [[|d text]|] eqn:Hget;
    [by intros [= <-]; split; [|right; left] |
     | by intros [= <-]; split; [|right; left]].
  destruct (summarize_text (String d text) summary_length)
    as [result|] eqn:Hresult; [|done].
  intros [= <-]. split; [done|]. right; right. simpl.
  by eapply transcript_outcome_of.
Qed.

Lemma batch_entry_None summary_length url :
  batch_entry summary_length url = None
  ↔ ∃ video_id text,
      extract_video_id url = Some (Some video_id)
      ∧ get_video_transcript video_id = Some text
      ∧ video_id ≠ "" ∧ text ≠ "" ∧ nlp text = None.
Proof.
  unfold batch_entry.
  destruct (extract_video_id_is_Some url) as [video_id ->]. simpl.
  destruct video_id as [[|c video_id]|];
    [split; [done | by intros (? & ? & [= <-] & _ & ? & _)]
    | | split; [done | by intros (? & ? & [=] & _)]].
  destruct (get_video_transcript (String c video_id))
    as [[|d text]|] eqn:Hget.
  - split; [done|]. intros (? & ? & [= <-] & Hget' & _ & ? & _). congruence.
  - destruct (summarize_text (String d text) summary_length)
      as [result|] eqn:Hresult; simpl.
    + split; [done|]. intros (? & ? & [= <-] & Hget' & _ & _ & Hnlp).
      assert (summarize_text (String d text) summary_length = None);
        [|congruence].
      apply summarize_text_None. split; [|congruence].
      by eapply transcript_passes_check.
    + split; [|done]. intros _. apply summarize_text_None in Hresult as [_ ?].
      by exists (String c video_id), (String d text).
  - split; [done|]. intros (? & ? & [= <-] & Hget' & _). congruence.
Qed.

(** When the loop of the batch ends, [results] has one entry for each
    URL, in the order of the URLs, whether the URL was valid or not and
    whether it had a transcript or not; an entry that the display does
    not show as a failure holds the summary of a transcript. *)
Theorem batch_results_entries urls summary_length results :
  batch_results urls summary_length = Some results →
  length results = length urls
  ∧ results.*1 = urls
  ∧ Forall (λ entry,
              entry.2 = "Invalid URL" ∨ entry.2 = "No transcript available"
              ∨ transcript_outcome summary_length entry.2) results
  ∧ Forall (λ entry,
              batch_is_error entry.2 = false →
              ∃ video_id text sentence_tokens,
                get_video_transcript video_id = Some text
                ∧ summarize_text text summary_length
                  = Some (Summary entry.2 sentence_tokens)) results.
Proof.
  unfold batch_results. intros Hall%mapM_Some.
  induction Hall as [|url entry urls results Hentry _ IH].
  { by split_and!. }
  destruct IH as (Hlen & Hurls & Hkinds & Hshown).
  apply batch_entry_Some in Hentry as [Hurl Hkind].
  split_and!; [simpl; by rewrite Hlen | by rewrite fmap_cons, Hurl, Hurls
               | by constructor |].
  constructor; [|done]. intros Herror.
  destruct Hkind as [Heq|[Heq|[Heq|[Heq|Hsummary]]]];
    [by rewrite Heq in Herror.. | exact Hsummary].
Qed.

(** The loop of the batch is left by an exception, and no result is
    shown, exactly when the model raises on the transcript of one of the
    URLs: an invalid URL or a missing transcript never does that. *)
Theorem batch_results_raises urls summary_length :
  batch_results urls summary_length = None
  ↔ ∃ url video_id text,
      url ∈ urls
      ∧ extract_video_id url = Some (Some video_id)
      ∧ get_video_transcript video_id = Some text
      ∧ video_id ≠ "" ∧ text ≠ "" ∧ nlp text = None.
Proof.
  unfold batch_results. rewrite mapM_None, Exists_exists.
  split.
  - intros (url & Hin & (video_id & text & Hrest)%batch_entry_None).
    by exists url, video_id, text.
  - intros (url & video_id & text & Hin & Hrest). exists url.
    split; [done|]. apply batch_entry_None. by exists video_id, text.
Qed.

(** ** [get_summary_length] *)

Lemma custom_length_range inputs length :
  custom_length inputs = Some length →
  (1 # 10 <= length)%Q ∧ (length <= 1)%Q.
Proof.
  induction inputs as [|[line|] inputs IH]; simpl; [done | | ].
  - destruct (py_float line) as [custom|]; [|done].
    destruct (Qle_bool (1 # 10) custom && Qle_bool custom 1) eqn:Hrange;
      [|done].
    intros [= <-]. apply andb_true_iff in Hrange as [Hlow Hhigh].
    by rewrite !Qle_bool_iff in Hlow, Hhigh.
  - intros [= <-]. split; by vm_compute.
Qed.

Lemma get_summary_length_range inputs length :
  get_summary_length inputs = Some length →
  (1 # 10 <= length)%Q ∧ (length <= 1)%Q.
Proof.
  destruct inputs as [|[line|] inputs]; simpl; [done | | ].
  - unfold preset_length.
    repeat (destruct (String.eqb _ _);
            [intros [= <-]; split; by vm_compute|]).
    destruct (String.eqb _ _); [apply custom_length_range|].
    intros [= <-]. split; by vm_compute.
  - intros [= <-]. split; by vm_compute.
Qed.

(** Whatever the user types, a length that the function returns lies
    between 0.1 and 1.0. *)
Theorem summary_length_in_range inputs length :
  get_summary_length inputs = Some length →
  (1 # 10 <= length)%Q ∧ (length <= 1)%Q.
Proof. apply get_summary_length_range. Qed.

Lemma py_int_inject_Z z : py_int (inject_Z z) = z.
Proof. unfold py_int. simpl. apply Z.quot_1_r. Qed.

(** With a length chosen at the console, the number of sentences asked
    of [nlargest] is at least one and at most the number of sentences of
    the document, when there is one. *)
Theorem console_length_selects_within_document inputs summary_length
    sentence_tokens :
  get_summary_length inputs = Some summary_length →
  sentence_tokens ≠ [] →
  (1 ≤ select_length sentence_tokens summary_length
   ≤ Z.of_nat (length sentence_tokens))%Z.
Proof.
  intros [Hlow Hhigh]%get_summary_length_range Hsentences.
  unfold select_length. split; [lia|].
  assert (1 ≤ length sentence_tokens)%nat as Hlen
    by (destruct sentence_tokens; [done | simpl; lia]).
  apply Z.max_lub; [lia|].
  rewrite <- (py_int_inject_Z (Z.of_nat (length sentence_tokens))) at 2.
  apply py_int_mono.
  rewrite <- (Qmult_1_r (inject_Z (Z.of_nat (length sentence_tokens)))) at 2.
  rewrite !(Qmult_comm (inject_Z _)). apply Qmult_le_compat_r; [done|].
  Q_of_Z.
Qed.

End Summarizer.

(** * The properties on concrete inputs *)

Lemma ascii_lower_char_idempotent c :
  PyStr.ascii_lower_char (PyStr.ascii_lower_char c) = PyStr.ascii_lower_char c.
Proof. destruct c as [[] [] [] [] [] [] [] []]; reflexivity. Qed.

Lemma ascii_lower_idempotent s :
  PyStr.ascii_lower (PyStr.ascii_lower s) = PyStr.ascii_lower s.
Proof.
  induction s as [|c s IH]; simpl; [done|].
  by rewrite ascii_lower_char_idempotent, IH.
Qed.

(** "Hello World." has one sentence and two tokens that pass the filter,
    and yet no summary: the table holds "Hello" and "World", the scoring
    loop asks for "hello" and "world". *)
Lemma capitalized_text_not_scored :
  doc_partitioned doc_hello
  ∧ doc_sents doc_hello ≠ []
  ∧ (∃ word, word ∈ doc_words doc_hello
             ∧ is_counted PyStr.ascii_lower stop_words_sample word = true)
  ∧ summarize_text PyStr.ascii_lower stop_words_sample (nlp_of doc_hello)
                   text_hello (3 # 10)
    = Some (Error "Error: Could not score sentences").
Proof.
  split_and!; [done | done | | by vm_compute].
  exists "Hello". split; [left | by vm_compute].
Qed.

Lemma summarize_text_succeeds_pets :
  PyStr.strip text_pets ≠ ""
  ∧ nlp_of doc_pets text_pets = Some doc_pets
  ∧ ∃ selected,
      (1 ≤ length selected)%nat
      ∧ (∀ s, s ∈ selected → doc_sents doc_pets !! s.1 = Some s.2)
      ∧ summarize_text PyStr.ascii_lower stop_words_sample (nlp_of doc_pets)
                       text_pets (34 # 100)
        = Some (Summary (PyStr.join " " (final_summary selected))
                        (doc_sents doc_pets)).
Proof.
  assert (PyStr.strip text_pets ≠ "") as Htext by (by vm_compute).
  split_and!; [done | done |].
  apply (summarize_text_succeeds PyStr.ascii_lower stop_words_sample
           (nlp_of doc_pets) text_pets (34 # 100) doc_pets Htext eq_refl).
  exists (mkSpan ["cats"; "are"; "great"; "pets"; "."] "cats are great pets."),
         "cats".
  split_and!; [left | left | by eexists; vm_compute].
Defined.

Lemma normalized_weights_unit_interval_pets :
  (∃ word, word ∈ doc_words doc_pets
           ∧ is_counted PyStr.ascii_lower stop_words_sample word = true)
  ∧ ∃ max_frequency weights,
      py_max (map_to_list (count_words PyStr.ascii_lower stop_words_sample
                             (doc_words doc_pets))).*2
      = Some max_frequency
      ∧ normalize (count_words PyStr.ascii_lower stop_words_sample
                     (doc_words doc_pets)) max_frequency
        = Some weights
      ∧ (∀ key, is_Some (weights !! key)
                ↔ is_Some (count_words PyStr.ascii_lower stop_words_sample
                             (doc_words doc_pets) !! key))
      ∧ (∀ key weight,
           weights !! key = Some weight → (0 < weight)%Q ∧ (weight <= 1)%Q)
      ∧ (∃ key, count_words PyStr.ascii_lower stop_words_sample
                  (doc_words doc_pets) !! key = Some max_frequency)
      ∧ (∀ key, count_words PyStr.ascii_lower stop_words_sample
                  (doc_words doc_pets) !! key = Some max_frequency →
           ∃ weight, weights !! key = Some weight ∧ (weight == 1)%Q).
Proof.
  assert (∃ word, word ∈ doc_words doc_pets
                  ∧ is_counted PyStr.ascii_lower stop_words_sample word = true)
    as Hword.
  { exists "cats". split; [left | by vm_compute]. }
  split; [exact Hword|].
  exact (normalized_weights_unit_interval PyStr.ascii_lower stop_words_sample
           (doc_words doc_pets) Hword).
Defined.

(** The token "./" is skipped, and it is neither a stopword nor a single
    punctuation character: it is two consecutive characters of the
    punctuation string. *)
Lemma two_character_token_skipped :
  ¬ (count_word PyStr.ascii_lower stop_words_sample ∅ "./" = ∅
     ↔ PyStr.ascii_lower "./" ∈ stop_words_sample
       ∨ single_punctuation (PyStr.ascii_lower "./") = true).
Proof.
  intros [Hskip _].
  destruct (Hskip ltac:(by vm_compute)) as [Hstop|Hpunct].
  - by repeat (apply elem_of_cons in Hstop as [?|Hstop]; [done|]);
      apply elem_of_nil in Hstop.
  - by vm_compute in Hpunct.
Qed.

(** "Stop. Dogs chase cats." with the fraction 1: two sentences, one of
    them scored; the summary holds one sentence, not
    max(1, floor(2 × 1)) = 2. *)
Lemma summary_shorter_than_select_length :
  let weights : gmap string Q :=
    (λ n, ratio n 1)
    <$> count_words PyStr.ascii_lower stop_words_sample (doc_words doc_dogs) in
  doc_partitioned doc_dogs
  ∧ summarize_text PyStr.ascii_lower stop_words_sample (nlp_of doc_dogs)
                   text_dogs 1
    = Some (Summary "Dogs chase cats." (doc_sents doc_dogs))
  ∧ normalize (count_words PyStr.ascii_lower stop_words_sample
                 (doc_words doc_dogs)) 1 = Some weights
  ∧ length (summary_sentences (doc_sents doc_dogs)
              (score_sentences PyStr.ascii_lower weights
                 (doc_sents doc_dogs)) 1) = 1%nat
  ∧ Z.to_nat (Z.max 1 (Qfloor (inject_Z (Z.of_nat
                                 (length (doc_sents doc_dogs))) * 1)))
    = 2%nat.
Proof. split_and!; vm_compute; reflexivity. Qed.

(** "zebra. apple banana. mango ..." with the fraction 0.7: the product
    3 × 0.7 is rounded to 2.0999999999999996, [int()] gives 2, and the
    three sentences are scored, so the summary holds two of them. *)
Lemma summary_sentence_count_fruit :
  summarize_text_float PyStr.ascii_lower stop_words_sample (nlp_of doc_fruit)
                       text_fruit (float_literal 7 10)
  = Some (Summary
            ("mango mango mango mango mango zebra zebra banana."
             +:+ " apple banana.")
            (doc_sents doc_fruit))
  ∧ ∃ document max_frequency weights product,
      nlp_of doc_fruit text_fruit = Some document
      ∧ doc_sents doc_fruit = doc_sents document
      ∧ py_max (map_to_list
                  (count_words PyStr.ascii_lower stop_words_sample
                     (doc_words document))).*2
        = Some max_frequency
      ∧ normalize_float (count_words PyStr.ascii_lower stop_words_sample
                           (doc_words document)) max_frequency
        = Some weights
      ∧ py_int_float
          (PrimFloat.mul
             (float_of_int (Z.of_nat (length (doc_sents doc_fruit))))
             (float_literal 7 10))
        = Some product
      ∧ let sentence_score :=
        score_sentences_float PyStr.ascii_lower weights (doc_sents doc_fruit) in
      let selected :=
        (nlargest snd (Z.max 1 product) (score_values sentence_score)).*1 in
      "mango mango mango mango mango zebra zebra banana." +:+ " apple banana."
      = PyStr.join " " (final_summary selected)
      ∧ length (final_summary selected) = length selected
      ∧ length selected
        = Nat.min (Z.to_nat (Z.max 1 product)) (length sentence_score)
      ∧ NoDup (Dict.keys sentence_score)
      ∧ (∀ s, s ∈ Dict.keys sentence_score
              ↔ doc_sents doc_fruit !! s.1 = Some s.2
                ∧ ∃ word, word ∈ span_words s.2
                          ∧ is_Some (weights !! PyStr.ascii_lower word))
      ∧ (1 ≤ length selected)%nat
      ∧ (length selected ≤ length (doc_sents doc_fruit))%nat.
Proof.
  assert (summarize_text_float PyStr.ascii_lower stop_words_sample
            (nlp_of doc_fruit) text_fruit (float_literal 7 10)
          = Some (Summary
                    ("mango mango mango mango mango zebra zebra banana."
                     +:+ " apple banana.")
                    (doc_sents doc_fruit))) as Hrun
    by (vm_compute; reflexivity).
  split; [exact Hrun|].
  exact (summary_sentence_count PyStr.ascii_lower stop_words_sample
           (nlp_of doc_fruit) text_fruit (float_literal 7 10) _ _ Hrun).
Defined.


(** Rounding decides the selection.  On "zebra. apple banana. mango ..."
    the first sentence scores 3/5 and the second 1/5 + 2/5: the machine
    finds 0.6 and 0.6000000000000001 and keeps the second sentence; with
    exact sums the scores tie and the first sentence is kept. *)
Example rounding_decides_selection :
  let counts :=
    count_words PyStr.ascii_lower stop_words_sample (doc_words doc_fruit) in
  let weights_float : gmap string PrimFloat.float :=
    (λ n, PrimFloat.div (float_of_int (Z.of_nat n)) (float_of_int 5))
    <$> counts in
  let weights : gmap string Q := (λ n, ratio n 5) <$> counts in
  normalize_float counts 5 = Some weights_float
  ∧ normalize counts 5 = Some weights
  ∧ take 2 (score_values
              (score_sentences_float PyStr.ascii_lower weights_float
                 (doc_sents doc_fruit))).*2
    = [5404319552844595 # 9007199254740992;
       5404319552844596 # 9007199254740992]
  ∧ fmap (M := option) (fmap fst)
      (summary_sentences_float (doc_sents doc_fruit)
         (score_sentences_float PyStr.ascii_lower weights_float
            (doc_sents doc_fruit))
         (float_literal 7 10))
    = Some [2; 1]%nat
  ∧ (summary_sentences (doc_sents doc_fruit)
       (score_sentences PyStr.ascii_lower weights (doc_sents doc_fruit))
       (7 # 10)).*1
    = [2; 0]%nat.
Proof. split_and!; vm_compute; reflexivity. Qed.

(** Rounding decides the count.  For 90 sentences and the fraction 0.7
    the rounded product is 62.99999999999999 and [int()] gives 62, where
    the floor of 90 × 7/10 is 63; for 10 sentences and the fraction 0.3
    the rounded product is 3 and [int()] gives 3, where the floor of ten
    times the rational that the double 0.3 denotes is 2. *)
Example rounding_decides_count :
  let sentence := mkSpan [] "" in
  select_length_float (replicate 90 sentence) (float_literal 7 10) = Some 62%Z
  ∧ select_length (replicate 90 sentence) (7 # 10) = 63%Z
  ∧ select_length_float (replicate 10 sentence) (float_literal 3 10) = Some 3%Z
  ∧ select_length (replicate 10 sentence) (float_value (float_literal 3 10))
    = 2%Z.
Proof. split_and!; vm_compute; reflexivity. Qed.

(** [int()] raises on a nan, on an infinity and on a product that
    overflows (3 × 1e308), and the function with it; a negative fraction
    does not raise and selects one sentence. *)
Example int_raises :
  select_length_float (doc_sents doc_fruit) PrimFloat.nan = None
  ∧ select_length_float (doc_sents doc_fruit) PrimFloat.infinity = None
  ∧ select_length_float (doc_sents doc_fruit) (float_of_int (10 ^ 308)) = None
  ∧ select_length_float (doc_sents doc_fruit) (float_literal (-1) 2)
    = Some 1%Z
  ∧ summarize_text_float PyStr.ascii_lower stop_words_sample
      (nlp_of doc_fruit) text_fruit PrimFloat.nan
    = None
  ∧ summarize_text_float PyStr.ascii_lower stop_words_sample
      (nlp_of doc_fruit) text_fruit (float_of_int (10 ^ 308))
    = None.
Proof. split_and!; vm_compute; reflexivity. Qed.


Lemma no_meaningful_words_stopwords :
  PyStr.strip text_stopwords ≠ ""
  ∧ nlp_of doc_stopwords text_stopwords = Some doc_stopwords
  ∧ (∀ word, word ∈ doc_words doc_stopwords →
       is_counted PyStr.ascii_lower stop_words_sample word = false)
  ∧ summarize_text PyStr.ascii_lower stop_words_sample (nlp_of doc_stopwords)
                   text_stopwords (3 # 10)
    = Some (Error "Error: No meaningful words found in text")
  ∧ "Error: No meaningful words found in text" ≠ "Error: No text to summarize"
  ∧ "Error: No meaningful words found in text"
    ≠ "Error: Could not score sentences".
Proof.
  assert (PyStr.strip text_stopwords ≠ "") as Htext by (by vm_compute).
  assert (∀ word, word ∈ doc_words doc_stopwords →
            is_counted PyStr.ascii_lower stop_words_sample word = false)
    as Hwords.
  { intros word Hin.
    repeat (apply elem_of_cons in Hin as [->|Hin]; [by vm_compute|]).
    by apply elem_of_nil in Hin. }
  split_and!; [done | done | done | ..];
    apply (no_meaningful_words PyStr.ascii_lower stop_words_sample
             (nlp_of doc_stopwords) text_stopwords (3 # 10) doc_stopwords
             Htext eq_refl Hwords).
Defined.

Lemma empty_input_blank :
  ("  " = "" ∨ PyStr.all_space "  " = true)
  ∧ summarize_text PyStr.ascii_lower stop_words_sample (nlp_of doc_pets)
                   "  " (3 # 10)
    = Some (Error "Error: No text to summarize").
Proof.
  split; [by right|].
  apply (empty_input PyStr.ascii_lower stop_words_sample (nlp_of doc_pets)).
  by right.
Defined.

Lemma selection_monotone_pets :
  let weights : gmap string Q := {[ "cats" := 1%Q; "dogs" := 1%Q ]} in
  (0 < 3 # 10)%Q ∧ (3 # 10 <= 7 # 10)%Q ∧ (7 # 10 <= 1)%Q
  ∧ let sentence_score :=
      score_sentences PyStr.ascii_lower weights (doc_sents doc_pets) in
    (length (summary_sentences (doc_sents doc_pets) sentence_score (3 # 10))
     ≤ length (summary_sentences (doc_sents doc_pets) sentence_score (7 # 10)))
      %nat
    ∧ summary_sentences (doc_sents doc_pets) sentence_score 1
      ≡ₚ Dict.keys sentence_score
    ∧ NoDup (summary_sentences (doc_sents doc_pets) sentence_score 1).
Proof.
  intros weights.
  assert (0 < 3 # 10)%Q as H1 by reflexivity.
  assert (3 # 10 <= 7 # 10)%Q as H2 by (by vm_compute).
  assert (7 # 10 <= 1)%Q as H3 by (by vm_compute).
  split_and!; [done | done | done |].
  exact (selection_monotone PyStr.ascii_lower weights (doc_sents doc_pets)
           (3 # 10) (7 # 10) H1 H2 H3).
Defined.

Lemma capitalized_weights_dead_hello :
  let words := doc_words doc_hello in
  let weights : gmap string Q :=
    (λ n, ratio n 1) <$> count_words PyStr.ascii_lower stop_words_sample words in
  (∀ s, PyStr.ascii_lower (PyStr.ascii_lower s) = PyStr.ascii_lower s)
  ∧ py_max (map_to_list
              (count_words PyStr.ascii_lower stop_words_sample words)).*2
    = Some 1%nat
  ∧ normalize (count_words PyStr.ascii_lower stop_words_sample words) 1
    = Some weights
  ∧ score_sentences PyStr.ascii_lower
      (lowercase_keys PyStr.ascii_lower weights) (doc_sents doc_hello)
    = score_sentences PyStr.ascii_lower weights (doc_sents doc_hello)
  ∧ (∀ key weight, weights !! key = Some weight →
       key ≠ PyStr.ascii_lower key →
       lowercase_keys PyStr.ascii_lower weights !! key = None)
  ∧ (∀ sentence score,
       Dict.get (score_sentences PyStr.ascii_lower weights
                   (doc_sents doc_hello)) sentence
       = Some score →
       (0 < score)%Q).
Proof.
  intros words weights.
  assert (py_max (map_to_list
                    (count_words PyStr.ascii_lower stop_words_sample words)).*2
          = Some 1%nat) as Hmax by (by vm_compute).
  assert (normalize (count_words PyStr.ascii_lower stop_words_sample words) 1
          = Some weights) as Hnorm by (vm_compute; reflexivity).
  split_and!; [apply ascii_lower_idempotent | done | done | ..];
    apply (capitalized_weights_dead PyStr.ascii_lower stop_words_sample
             ascii_lower_idempotent words (doc_sents doc_hello) 1%nat weights
             Hmax Hnorm).
Defined.

(** The summary is not in document order in general: with the fraction 1
    the three sentences of the scenario come out third, first, second. *)
Example selection_not_document_order :
  let weights : gmap string Q :=
    (λ n, ratio n 2)
    <$> count_words PyStr.ascii_lower stop_words_sample (doc_words doc_pets) in
  normalize (count_words PyStr.ascii_lower stop_words_sample
               (doc_words doc_pets)) 2 = Some weights
  ∧ (summary_sentences (doc_sents doc_pets)
       (score_sentences PyStr.ascii_lower weights (doc_sents doc_pets)) 1).*1
    = [2; 0; 1]%nat.
Proof. split; vm_compute; reflexivity. Qed.

(** The scenario of the specification as written, with capitals: "Cats"
    is counted twice under its surface form and never read, so the first
    sentence scores 1, the second 1 and the third 2; the fraction 0.34
    selects the third. *)
Example scenario_with_capitals :
  let words := ["Cats"; "are"; "great"; "pets"; "."; "Dogs"; "are"; "loyal";
                "too"; "."; "Cats"; "and"; "dogs"; "both"; "need"; "love"; "."] in
  let sentence_tokens :=
    [mkSpan ["Cats"; "are"; "great"; "pets"; "."] "Cats are great pets.";
     mkSpan ["Dogs"; "are"; "loyal"; "too"; "."] "Dogs are loyal too.";
     mkSpan ["Cats"; "and"; "dogs"; "both"; "need"; "love"; "."]
            "Cats and dogs both need love."] in
  let weights : gmap string Q :=
    (λ n, ratio n 2) <$> count_words PyStr.ascii_lower stop_words_sample words in
  count_words PyStr.ascii_lower stop_words_sample words !! "Cats" = Some 2%nat
  ∧ (score_sentences PyStr.ascii_lower weights sentence_tokens).*2
    = [(1 # 2) + (1 # 2); (1 # 2) + (1 # 2);
       (1 # 2) + (1 # 2) + (1 # 2) + (1 # 2)]%Q
  ∧ summarize_text PyStr.ascii_lower stop_words_sample
      (nlp_of (mkDoc words sentence_tokens))
      "Cats are great pets. Dogs are loyal too. Cats and dogs both need love."
      (34 # 100)
    = Some (Summary "Cats and dogs both need love." sentence_tokens).
Proof. split_and!; vm_compute; reflexivity. Qed.

(** * The further properties on concrete inputs *)

Lemma summary_grows_by_appending_pets :
  let sentence_score : list (Sentence * Q) :=
    score_sentences PyStr.ascii_lower
      ({[ "cats" := 1%Q; "dogs" := 1%Q ]} : gmap string Q)
      (doc_sents doc_pets) in
  (3 # 10 <= 7 # 10)%Q
  ∧ summary_sentences (doc_sents doc_pets) sentence_score (3 # 10)
    `prefix_of` summary_sentences (doc_sents doc_pets) sentence_score (7 # 10).
Proof.
  intros sentence_score.
  assert (3 # 10 <= 7 # 10)%Q as Hle by (by vm_compute).
  split; [done|].
  exact (summary_grows_by_appending (doc_sents doc_pets) sentence_score
           (3 # 10) (7 # 10) Hle).
Defined.

Lemma sentence_score_at_most_length_pets :
  let words := doc_words doc_pets in
  let weights : gmap string Q :=
    (λ n, ratio n 2) <$> count_words PyStr.ascii_lower stop_words_sample words in
  let sentence : Sentence :=
    (0%nat, mkSpan ["cats"; "are"; "great"; "pets"; "."]
                   "cats are great pets.") in
  py_max (map_to_list
            (count_words PyStr.ascii_lower stop_words_sample words)).*2
  = Some 2%nat
  ∧ normalize (count_words PyStr.ascii_lower stop_words_sample words) 2
    = Some weights
  ∧ Dict.get (score_sentences PyStr.ascii_lower weights (doc_sents doc_pets))
             sentence
    = Some (16 # 8)%Q
  ∧ (16 # 8 <= inject_Z (Z.of_nat (length (span_words sentence.2))))%Q.
Proof.
  intros words weights sentence.
  assert (py_max (map_to_list
                    (count_words PyStr.ascii_lower stop_words_sample words)).*2
          = Some 2%nat) as Hmax by (vm_compute; reflexivity).
  assert (normalize (count_words PyStr.ascii_lower stop_words_sample words) 2
          = Some weights) as Hnorm by (vm_compute; reflexivity).
  assert (Dict.get (score_sentences PyStr.ascii_lower weights
                      (doc_sents doc_pets)) sentence
          = Some (16 # 8)%Q) as Hget by (vm_compute; reflexivity).
  split_and!; [done | done | done |].
  exact (sentence_score_at_most_length PyStr.ascii_lower stop_words_sample
           words 2%nat weights (doc_sents doc_pets) sentence (16 # 8)%Q
           Hmax Hnorm Hget).
Defined.

Lemma filtered_tokens_carry_no_weight_pets :
  let words := doc_words doc_pets in
  let weights : gmap string Q :=
    (λ n, ratio n 2) <$> count_words PyStr.ascii_lower stop_words_sample words in
  (∀ s, PyStr.ascii_lower (PyStr.ascii_lower s) = PyStr.ascii_lower s)
  ∧ py_max (map_to_list
              (count_words PyStr.ascii_lower stop_words_sample words)).*2
    = Some 2%nat
  ∧ normalize (count_words PyStr.ascii_lower stop_words_sample words) 2
    = Some weights
  ∧ (∀ word,
       PyStr.ascii_lower word ∈ stop_words_sample
       ∨ PyStr.contains punctuation (PyStr.ascii_lower word) = true →
       weights !! PyStr.ascii_lower word = None)
  ∧ (∀ sentence_tokens i sentence,
       sentence_tokens !! i = Some sentence →
       (∀ word, word ∈ span_words sentence →
          PyStr.ascii_lower word ∈ stop_words_sample
          ∨ PyStr.contains punctuation (PyStr.ascii_lower word) = true) →
       Dict.get (score_sentences PyStr.ascii_lower weights sentence_tokens)
                (i, sentence) = None).
Proof.
  intros words weights.
  assert (py_max (map_to_list
                    (count_words PyStr.ascii_lower stop_words_sample words)).*2
          = Some 2%nat) as Hmax by (vm_compute; reflexivity).
  assert (normalize (count_words PyStr.ascii_lower stop_words_sample words) 2
          = Some weights) as Hnorm by (vm_compute; reflexivity).
  split_and!; [apply ascii_lower_idempotent | done | done | ..];
    apply (filtered_tokens_carry_no_weight PyStr.ascii_lower stop_words_sample
             ascii_lower_idempotent words 2%nat weights Hmax Hnorm).
Defined.

Lemma extract_video_id_watch_sample :
  pytube_fails url_watch = None
  ∧ PyStr.contains url_watch "youtube.com/watch?v=" = true
  ∧ ∃ before video_id after,
      extract_video_id pytube_fails url_watch = Some (Some video_id)
      ∧ url_watch = before +:+ "v=" +:+ video_id +:+ after
      ∧ PyStr.contains before "v=" = false
      ∧ PyStr.contains video_id "v=" = false
      ∧ PyStr.contains video_id "&" = false
      ∧ (after = "" ∨ String.prefix "&" after = true
         ∨ String.prefix "v=" after = true).
Proof.
  split_and!; [reflexivity | reflexivity |].
  exact (extract_video_id_watch pytube_fails url_watch eq_refl eq_refl).
Defined.

Lemma extract_video_id_short_sample :
  pytube_fails url_short = None
  ∧ PyStr.contains url_short "youtube.com/watch?v=" = false
  ∧ PyStr.contains url_short "youtu.be/" = true
  ∧ ∃ before video_id after,
      extract_video_id pytube_fails url_short = Some (Some video_id)
      ∧ url_short = before +:+ "youtu.be/" +:+ video_id +:+ after
      ∧ PyStr.contains before "youtu.be/" = false
      ∧ PyStr.contains video_id "youtu.be/" = false
      ∧ PyStr.contains video_id "?" = false
      ∧ (after = "" ∨ String.prefix "?" after = true
         ∨ String.prefix "youtu.be/" after = true).
Proof.
  split_and!; [reflexivity | reflexivity | reflexivity |].
  exact (extract_video_id_short pytube_fails url_short
           eq_refl eq_refl eq_refl).
Defined.

Lemma transcript_is_clean_sample :
  get_video_transcript transcript_sample "abc" = Some "Hello big world"
  ∧ PyStr.contains "Hello big world" PyStr.newline = false
  ∧ PyStr.strip "Hello big world" = "Hello big world".
Proof.
  split; [reflexivity|].
  exact (transcript_is_clean transcript_sample "abc" "Hello big world"
           eq_refl).
Defined.

Lemma batch_results_entries_sample :
  let results :=
    [("https://youtu.be/abc", "cats and dogs both need love.");
     ("nowhere", "Invalid URL")] in
  batch_results PyStr.ascii_lower stop_words_sample (nlp_of doc_pets)
    pytube_fails transcript_sample ["https://youtu.be/abc"; "nowhere"]
    (34 # 100)
  = Some results
  ∧ length results = 2%nat
  ∧ results.*1 = ["https://youtu.be/abc"; "nowhere"]
  ∧ Forall (λ entry,
              entry.2 = "Invalid URL" ∨ entry.2 = "No transcript available"
              ∨ transcript_outcome PyStr.ascii_lower stop_words_sample
                  (nlp_of doc_pets) transcript_sample (34 # 100) entry.2)
           results
  ∧ Forall (λ entry,
              batch_is_error entry.2 = false →
              ∃ video_id text sentence_tokens,
                get_video_transcript transcript_sample video_id = Some text
                ∧ summarize_text PyStr.ascii_lower stop_words_sample
                    (nlp_of doc_pets) text (34 # 100)
                  = Some (Summary entry.2 sentence_tokens))
           results.
Proof.
  intros results.
  assert (batch_results PyStr.ascii_lower stop_words_sample (nlp_of doc_pets)
            pytube_fails transcript_sample ["https://youtu.be/abc"; "nowhere"]
            (34 # 100)
          = Some results) as Hrun by (vm_compute; reflexivity).
  split; [exact Hrun|].
  exact (batch_results_entries PyStr.ascii_lower stop_words_sample
           (nlp_of doc_pets) pytube_fails transcript_sample _ _ _ Hrun).
Defined.

Lemma summary_length_in_range_sample :
  get_summary_length float_sample
    [Typed " 6 "; Typed "abc"; Typed "7"; Typed "0.5"]
  = Some (1 # 2)
  ∧ (1 # 10 <= 1 # 2)%Q ∧ (1 # 2 <= 1)%Q.
Proof.
  split; [reflexivity|].
  exact (summary_length_in_range float_sample
           [Typed " 6 "; Typed "abc"; Typed "7"; Typed "0.5"] (1 # 2) eq_refl).
Defined.

Lemma console_length_selects_within_document_pets :
  get_summary_length float_sample
    [Typed " 6 "; Typed "abc"; Typed "7"; Typed "0.5"]
  = Some (1 # 2)
  ∧ doc_sents doc_pets ≠ []
  ∧ (1 ≤ select_length (doc_sents doc_pets) (1 # 2)
     ≤ Z.of_nat (length (doc_sents doc_pets)))%Z.
Proof.
  assert (doc_sents doc_pets ≠ []) as Hsentences by done.
  split_and!; [reflexivity | done | ..];
    apply (console_length_selects_within_document float_sample
             [Typed " 6 "; Typed "abc"; Typed "7"; Typed "0.5"] (1 # 2)
             (doc_sents doc_pets) eq_refl Hsentences).
Defined.

Lemma word_weight_is_relative_count_pets :
  let words := doc_words doc_pets in
  let weights : gmap string Q :=
    (λ n, ratio n 2) <$> count_words PyStr.ascii_lower stop_words_sample words in
  py_max (map_to_list
            (count_words PyStr.ascii_lower stop_words_sample words)).*2
  = Some 2%nat
  ∧ normalize (count_words PyStr.ascii_lower stop_words_sample words) 2
    = Some weights
  ∧ (∀ key,
       weights !! key
       = match occurrences PyStr.ascii_lower stop_words_sample key words with
         | O => None
         | S n => Some (ratio (S n) 2)
         end)
  ∧ (∀ key,
       (occurrences PyStr.ascii_lower stop_words_sample key words ≤ 2)%nat)
  ∧ (∃ key, occurrences PyStr.ascii_lower stop_words_sample key words = 2%nat)
  ∧ (1 ≤ 2)%nat.
Proof.
  intros words weights.
  assert (py_max (map_to_list
                    (count_words PyStr.ascii_lower stop_words_sample words)).*2
          = Some 2%nat) as Hmax by (vm_compute; reflexivity).
  assert (normalize (count_words PyStr.ascii_lower stop_words_sample words) 2
          = Some weights) as Hnorm by (vm_compute; reflexivity).
  split_and!; [done | done | ..];
    apply (word_weight_is_relative_count PyStr.ascii_lower stop_words_sample
             words 2%nat weights Hmax Hnorm).
Defined.
